(** * Shallow embedding of the klaas CLI session runtime.

    Bytes and Unicode scalar values are [Z]; a Rust [&str] is either the
    list of its chars (code points) or, where the code works on its
    UTF-8 bytes, the byte list produced by [utf8_encode_str]. *)

From Stdlib Require Import ZArith String Ascii List Bool Lia Sorted.
Import ListNotations.
Open Scope Z_scope.
Set Warnings "-register-all".

Definition bytes := list Z.

(** ** Shared runtime vocabulary *)

(** [crate::error::CliError], restricted to the variants used here. *)
Inductive CliError :=
| CryptoError (msg : string)
| WebSocketError (msg : string).

(** The outcome of a Rust call returning [Result<A, CliError>]; a panic
    (failed [expect], out-of-range slice, [copy_from_slice] on slices of
    different lengths) is an outcome of its own. *)
Inductive outcome (A : Type) :=
| Done (a : A)
| Failed (e : CliError)
| Panicked (reason : string).
Arguments Done {A} a.
Arguments Failed {A} e.
Arguments Panicked {A} reason.

(** UTF-8 encoding of one code point ([char::encode_utf8]). *)
Definition utf8_encode (c : Z) : bytes :=
  if c <? 128 then [c]
  else if c <? 2048 then
    [Z.lor 192 (Z.shiftr c 6); Z.lor 128 (Z.land c 63)]
  else if c <? 65536 then
    [Z.lor 224 (Z.shiftr c 12); Z.lor 128 (Z.land (Z.shiftr c 6) 63);
     Z.lor 128 (Z.land c 63)]
  else
    [Z.lor 240 (Z.shiftr c 18); Z.lor 128 (Z.land (Z.shiftr c 12) 63);
     Z.lor 128 (Z.land (Z.shiftr c 6) 63); Z.lor 128 (Z.land c 63)].

(** [str::as_bytes] of a string given by its chars. *)
Definition utf8_encode_str (s : list Z) : bytes := flat_map utf8_encode s.

(** [str::len]: the UTF-8 byte length. *)
Definition str_len (s : list Z) : nat := length (utf8_encode_str s).

(** Bytes of an ASCII Rocq string (identifiers, fixed prefixes). *)
Definition bytes_of_string (s : string) : bytes :=
  map (fun a => Z.of_nat (nat_of_ascii a)) (list_ascii_of_string s).

(** * packages/cli/src/crypto.rs *)
Module Crypto.

Definition KEY_SIZE : nat := 32.
Definition NONCE_SIZE : nat := 12.
Definition TAG_SIZE : nat := 16.
Definition SESSION_KEY_INFO_PREFIX : string := "klaas-session-v1:".

(** The primitives the module takes from its crates: [hkdf::Hkdf<Sha256>]
    (extract with no salt, then expand), [aes_gcm::Aes256Gcm] (encrypt
    returns ciphertext with the tag appended; decrypt takes the same and
    reports an opaque [aead::Error] as [None]) and the STANDARD engine of
    the [base64] crate (a decode error carries its display text). *)
Record CryptoPrims := {
  hkdf_sha256_expand : bytes -> bytes -> nat -> bytes;
  aes256gcm_encrypt : bytes -> bytes -> bytes -> bytes;
  aes256gcm_decrypt : bytes -> bytes -> bytes -> option bytes;
  b64_encode : bytes -> string;
  b64_decode : string -> bytes + string
}.

Section WithPrims.
Variable P : CryptoPrims.

(** [SecretKey] is its 32 raw bytes. *)
Definition SecretKey := bytes.

Record EncryptedContent := {
  v : Z;              (* u8 *)
  nonce : string;
  ciphertext : string;
  tag : string
}.

Definition derive_session_key (mek : SecretKey) (session_id : string)
  : SecretKey :=
  let info := (SESSION_KEY_INFO_PREFIX ++ session_id)%string in
  hkdf_sha256_expand P mek (bytes_of_string info) KEY_SIZE.

(** [aes_gcm_encrypt] with the nonce that [generate_nonce] drew;
    [split_at(len - TAG_SIZE)] panics when the output is shorter than a
    tag. *)
Definition aes_gcm_encrypt (key : SecretKey) (nonce_bytes : bytes)
    (plaintext : bytes) : outcome (bytes * bytes * bytes) :=
  let ciphertext_with_tag := aes256gcm_encrypt P key nonce_bytes plaintext in
  if (length ciphertext_with_tag <? TAG_SIZE)%nat
  then Panicked "attempt to subtract with overflow"
  else
    let mid := (length ciphertext_with_tag - TAG_SIZE)%nat in
    Done (firstn mid ciphertext_with_tag, nonce_bytes,
          skipn mid ciphertext_with_tag).

(** [aes_gcm_decrypt]: ciphertext and tag are concatenated again. *)
Definition aes_gcm_decrypt (key : SecretKey) (ciphertext_b : bytes)
    (nonce_b tag_b : bytes) : outcome bytes :=
  let ct_with_tag := ciphertext_b ++ tag_b in
  match aes256gcm_decrypt P key nonce_b ct_with_tag with
  | Some pt => Done pt
  | None => Failed (CryptoError "Decryption failed (wrong key or corrupted data)")
  end.

Definition base64_encode (data : bytes) : string := b64_encode P data.

Definition base64_decode (encoded : string) : outcome bytes :=
  match b64_decode P encoded with
  | inl data => Done data
  | inr e => Failed (CryptoError ("Base64 decode failed: " ++ e)%string)
  end.

(** [<[u8; N]>::copy_from_slice]: panics on a length mismatch. *)
Definition copy_from_slice (n : nat) (src : bytes) : outcome bytes :=
  if (length src =? n)%nat then Done src
  else Panicked "source slice length does not match destination slice length".

(** [encrypt_content]; the [expect] turns an encryption error into a
    panic. *)
Definition encrypt_content (session_key : SecretKey) (nonce_bytes : bytes)
    (plaintext : bytes) : outcome EncryptedContent :=
  match aes_gcm_encrypt session_key nonce_bytes plaintext with
  | Done (ct, n, t) =>
      Done {| v := 1; nonce := base64_encode n;
              ciphertext := base64_encode ct; tag := base64_encode t |}
  | Failed _ => Panicked "Content encryption should not fail"
  | Panicked r => Panicked r
  end.

Definition decrypt_content (session_key : SecretKey)
    (encrypted : EncryptedContent) : outcome bytes :=
  if negb (v encrypted =? 1)
  then Failed (CryptoError "Unsupported encryption version")
  else
  match base64_decode (nonce encrypted) with
  | Failed e => Failed e | Panicked r => Panicked r
  | Done nonce_v =>
  match base64_decode (ciphertext encrypted) with
  | Failed e => Failed e | Panicked r => Panicked r
  | Done ciphertext_v =>
  match base64_decode (tag encrypted) with
  | Failed e => Failed e | Panicked r => Panicked r
  | Done tag_v =>
  if negb (length nonce_v =? NONCE_SIZE)%nat
  then Failed (CryptoError "Invalid nonce size")
  else if negb (length tag_v =? TAG_SIZE)%nat
  then Failed (CryptoError "Invalid tag size")
  else
  match copy_from_slice NONCE_SIZE nonce_v with
  | Failed e => Failed e | Panicked r => Panicked r
  | Done nonce_arr =>
  match copy_from_slice TAG_SIZE tag_v with
  | Failed e => Failed e | Panicked r => Panicked r
  | Done tag_arr => aes_gcm_decrypt session_key ciphertext_v nonce_arr tag_arr
  end end end end end.

End WithPrims.
End Crypto.

(** * src/src/websocket.rs: the outgoing message queue *)
Module Queue.

Definition MAX_QUEUE_SIZE : nat := 100.

(** Instants and durations in milliseconds; [MAX_QUEUE_AGE] is five
    minutes. *)
Definition MAX_QUEUE_AGE : Z := 5 * 60 * 1000.

Section WithMessage.
Context {OutgoingMessage : Type}.

Record QueuedMessage := {
  message : OutgoingMessage;
  timestamp : Z
}.

(** [Instant::duration_since] saturates at zero. *)
Definition duration_since (now earlier : Z) : Z := Z.max 0 (now - earlier).

(** [while queue.len() > MAX_QUEUE_SIZE { queue.pop_front(); }] *)
Fixpoint trim_front (fuel : nat) (queue : list QueuedMessage)
  : list QueuedMessage :=
  match fuel with
  | O => queue
  | S fuel' =>
      if (MAX_QUEUE_SIZE <? length queue)%nat then
        match queue with
        | [] => []
        | _ :: rest => trim_front fuel' rest
        end
      else queue
  end.

Definition queue_message (now : Z) (msg : OutgoingMessage)
    (queue : list QueuedMessage) : list QueuedMessage :=
  let pruned :=
    filter (fun m => duration_since now (timestamp m) <? MAX_QUEUE_AGE) queue in
  let pushed := pruned ++ [{| message := msg; timestamp := now |}] in
  trim_front (length pushed) pushed.

(** [drain_message_queue]: [sender_present] is whether [self.sender]
    holds a sink, [send_ok] whether [sender.send] succeeds on a message.
    The result is the messages sent (in order), the queue left behind and
    whether the drain returned [Ok]. *)
Fixpoint drain_loop (now : Z) (sender_present : bool)
    (send_ok : OutgoingMessage -> bool) (queue : list QueuedMessage)
  : list QueuedMessage * list QueuedMessage * bool :=
  match queue with
  | [] => ([], [], true)
  | queued :: rest =>
      if MAX_QUEUE_AGE <=? duration_since now (timestamp queued) then
        drain_loop now sender_present send_ok rest
      else if sender_present then
        if send_ok (message queued) then
          let '(sent, remaining, ok) := drain_loop now sender_present send_ok rest in
          (queued :: sent, remaining, ok)
        else ([], queued :: rest, false)
      else drain_loop now sender_present send_ok rest
  end.

Definition drain_message_queue (now : Z) (sender_present : bool)
    (send_ok : OutgoingMessage -> bool) (queue : list QueuedMessage) :=
  drain_loop now sender_present send_ok queue.

(** A run of the queue: enqueues (from [send_message] while not
    connected) and drains (from [do_connect]). *)
Inductive queue_op :=
| Enqueue (now : Z) (msg : OutgoingMessage)
| Drain (now : Z) (sender_present : bool) (send_ok : OutgoingMessage -> bool).

(** Runs the operations from a queue; returns every delivery with the
    instant of its drain, the queue after each operation and the final
    queue. *)
Fixpoint run_queue (ops : list queue_op) (queue : list QueuedMessage)
  : list (QueuedMessage * Z) * list (list QueuedMessage) * list QueuedMessage :=
  match ops with
  | [] => ([], [], queue)
  | Enqueue now msg :: ops' =>
      let q' := queue_message now msg queue in
      let '(dl, states, final) := run_queue ops' q' in
      (dl, q' :: states, final)
  | Drain now sp ok :: ops' =>
      let '(sent, q', _) := drain_message_queue now sp ok queue in
      let '(dl, states, final) := run_queue ops' q' in
      (map (fun m => (m, now)) sent ++ dl, q' :: states, final)
  end.

End WithMessage.

(** The oldest-first eviction the claim describes: keep the newest
    [MAX_QUEUE_SIZE] entries. *)
Definition lastn {A} (n : nat) (l : list A) : list A :=
  skipn (length l - n) l.

End Queue.

(** * src/src/websocket.rs: [WebSocketClient::reconnect] *)
Module Backoff.

Definition MAX_RECONNECT_ATTEMPTS : Z := 10.
Definition BASE_BACKOFF_MS : Z := 500.
Definition MAX_BACKOFF_MS : Z := 30000.

(** [gen_range(0..1000)] *)
Definition jitter_ok (jitter : Z) : Prop := 0 <= jitter < 1000.

(** The delay computed for attempt [current_attempt] ([u64] arithmetic
    does not overflow for attempts up to 10). *)
Definition backoff_delay (current_attempt jitter : Z) : Z :=
  let base_delay := BASE_BACKOFF_MS * 2 ^ (current_attempt - 1) in
  Z.min (base_delay + jitter) MAX_BACKOFF_MS.

(** One call of [reconnect] on the counter [reconnect_attempt]: either it
    returns [Ok(false)] at once, or it bumps the counter and sleeps. *)
Inductive reconnect_step :=
| GiveUp
| SleepThenConnect (current_attempt : Z) (delay_ms : Z).

Definition reconnect (attempt jitter : Z) : reconnect_step :=
  if MAX_RECONNECT_ATTEMPTS <=? attempt then GiveUp
  else
    let current_attempt := attempt + 1 in
    SleepThenConnect current_attempt (backoff_delay current_attempt jitter).

Inductive reconnect_result := Reconnected | MaxAttemptsReached | StillTrying.

(** Repeated calls of [reconnect] on one client, each with the jitter it
    draws and whether [do_connect] then succeeds ([do_connect] resets the
    counter to 0 on success).  Returns the (attempt, delay) pairs slept. *)
Fixpoint reconnect_run (attempt : Z) (tries : list (Z * bool))
  : list (Z * Z) * reconnect_result :=
  match tries with
  | [] => ([], StillTrying)
  | (jitter, connects) :: rest =>
      match reconnect attempt jitter with
      | GiveUp => ([], MaxAttemptsReached)
      | SleepThenConnect n d =>
          if connects then ([(n, d)], Reconnected)
          else let '(slept, r) := reconnect_run n rest in ((n, d) :: slept, r)
      end
  end.

(** The interval of the claim, as a predicate on a delay. *)
Definition claimed_delay_range (n delay : Z) : Prop :=
  BASE_BACKOFF_MS * 2 ^ (n - 1) <= delay <= BASE_BACKOFF_MS * 2 ^ (n - 1) + 1000
  /\ 0 <= delay <= MAX_BACKOFF_MS.

End Backoff.

(** * src/src/app.rs and src/src/guest/terminal.rs: [key_event_to_bytes] *)
Module KeyCodec.

(** [crossterm::event::KeyCode]; a char is its code point, [F] carries
    its [u8]. *)
Inductive KeyCode :=
| Backspace | Enter | Left | Right | Up | Down | Home | End
| PageUp | PageDown | Tab | BackTab | Delete | Insert
| F (n : Z) | Char (c : Z) | Null | Esc | CapsLock | ScrollLock | NumLock
| PrintScreen | Pause | Menu | KeypadBegin | Media (m : nat)
| Modifier (m : nat).

(** [KeyModifiers] is a [u8] bit set; [KeyEventKind] and [KeyEventState]
    are not read by the codec. *)
Record KeyEvent := {
  code : KeyCode;
  modifiers : Z;
  kind : nat;
  state : Z
}.

Definition SHIFT : Z := 1.
Definition CONTROL : Z := 2.
Definition ALT : Z := 4.

Definition contains (flags bit : Z) : bool := Z.eqb (Z.land flags bit) bit.

(** [c as u8] keeps the low eight bits of the code point. *)
Definition char_as_u8 (c : Z) : Z := c mod 256.

(** src/src/app.rs *)
Definition key_event_to_bytes (event : KeyEvent) : bytes :=
  match code event with
  | Char c =>
      if contains (modifiers event) CONTROL then
        let ctrl_char := Z.land (char_as_u8 c) 31 in [ctrl_char]
      else utf8_encode c
  | Enter => [13]
  | Backspace => [127]
  | Tab => [9]
  | Esc => [27]
  | Up => [27; 91; 65]
  | Down => [27; 91; 66]
  | Right => [27; 91; 67]
  | Left => [27; 91; 68]
  | Home => [27; 91; 72]
  | End => [27; 91; 70]
  | PageUp => [27; 91; 53; 126]
  | PageDown => [27; 91; 54; 126]
  | Delete => [27; 91; 51; 126]
  | Insert => [27; 91; 50; 126]
  | F n =>
      if n =? 1 then [27; 79; 80]
      else if n =? 2 then [27; 79; 81]
      else if n =? 3 then [27; 79; 82]
      else if n =? 4 then [27; 79; 83]
      else if n =? 5 then [27; 91; 49; 53; 126]
      else if n =? 6 then [27; 91; 49; 55; 126]
      else if n =? 7 then [27; 91; 49; 56; 126]
      else if n =? 8 then [27; 91; 49; 57; 126]
      else if n =? 9 then [27; 91; 50; 48; 126]
      else if n =? 10 then [27; 91; 50; 49; 126]
      else if n =? 11 then [27; 91; 50; 51; 126]
      else if n =? 12 then [27; 91; 50; 52; 126]
      else []
  | _ => []
  end.

(** src/src/guest/terminal.rs: the guest's copy of the codec. *)
Definition guest_key_event_to_bytes (event : KeyEvent) : bytes :=
  match code event with
  | Char c =>
      if contains (modifiers event) CONTROL then
        let ctrl_char := Z.land (char_as_u8 c) 31 in [ctrl_char]
      else utf8_encode c
  | Enter => [13]
  | Backspace => [127]
  | Tab => [9]
  | Esc => [27]
  | Up => [27; 91; 65]
  | Down => [27; 91; 66]
  | Right => [27; 91; 67]
  | Left => [27; 91; 68]
  | Home => [27; 91; 72]
  | End => [27; 91; 70]
  | PageUp => [27; 91; 53; 126]
  | PageDown => [27; 91; 54; 126]
  | Delete => [27; 91; 51; 126]
  | Insert => [27; 91; 50; 126]
  | F n =>
      if n =? 1 then [27; 79; 80]
      else if n =? 2 then [27; 79; 81]
      else if n =? 3 then [27; 79; 82]
      else if n =? 4 then [27; 79; 83]
      else if n =? 5 then [27; 91; 49; 53; 126]
      else if n =? 6 then [27; 91; 49; 55; 126]
      else if n =? 7 then [27; 91; 49; 56; 126]
      else if n =? 8 then [27; 91; 49; 57; 126]
      else if n =? 9 then [27; 91; 50; 48; 126]
      else if n =? 10 then [27; 91; 50; 49; 126]
      else if n =? 11 then [27; 91; 50; 51; 126]
      else if n =? 12 then [27; 91; 50; 52; 126]
      else []
  | _ => []
  end.

(** The reference mapping, written from the specification's table:
    CSI is [ESC [], SS3 is [ESC O], parameters are decimal digits. *)
Definition ESC : Z := 27.
Definition ascii_byte (a : ascii) : Z := Z.of_nat (nat_of_ascii a).
Definition csi (final : bytes) : bytes := ESC :: ascii_byte "[" :: final.
Definition ss3 (final : ascii) : bytes := [ESC; ascii_byte "O"; ascii_byte final].
Definition decimal2 (d : Z) : bytes := [48 + d / 10; 48 + d mod 10].
Definition csi_tilde (param : Z) : bytes :=
  csi ((if param <? 10 then [48 + param] else decimal2 param) ++ [ascii_byte "~"]).

Definition spec_key_bytes (event : KeyEvent) : bytes :=
  match code event with
  | Char c =>
      if contains (modifiers event) CONTROL then [Z.land c 31]
      else utf8_encode c
  | Enter => [ascii_byte "013"]
  | Backspace => [127]
  | Tab => [ascii_byte "009"]
  | Esc => [ESC]
  | Up => csi [ascii_byte "A"]
  | Down => csi [ascii_byte "B"]
  | Right => csi [ascii_byte "C"]
  | Left => csi [ascii_byte "D"]
  | Home => csi [ascii_byte "H"]
  | End => csi [ascii_byte "F"]
  | PageUp => csi_tilde 5
  | PageDown => csi_tilde 6
  | Delete => csi_tilde 3
  | Insert => csi_tilde 2
  | F n =>
      if (1 <=? n) && (n <=? 4) then
        ss3 (nth (Z.to_nat (n - 1)) ["P"; "Q"; "R"; "S"]%char "P"%char)
      else if (5 <=? n) && (n <=? 12) then
        csi_tilde (nth (Z.to_nat (n - 5)) [15; 17; 18; 19; 20; 21; 23; 24] 0)
      else []
  | _ => []
  end.

End KeyCodec.

(** * src/src/main.rs: [is_valid_session_name] *)
Module SessionName.

(** [char::is_ascii_alphanumeric] *)
Definition is_ascii_alphanumeric (c : Z) : bool :=
  ((48 <=? c) && (c <=? 57)) || ((65 <=? c) && (c <=? 90))
  || ((97 <=? c) && (c <=? 122)).

(** The name is given by its chars; [is_empty] and [len] are on its UTF-8
    bytes. *)
Definition is_valid_session_name (name : list Z) : bool :=
  if (str_len name =? 0)%nat || (20 <? str_len name)%nat then false
  else forallb (fun c => is_ascii_alphanumeric c || (c =? 45) || (c =? 95)) name.

(** The specification's [^[A-Za-z0-9_-]{1,20}$], matched against the
    chars of the name. *)
Definition ascii_byte (a : ascii) : Z := Z.of_nat (nat_of_ascii a).

Definition in_name_class (c : Z) : bool :=
  ((ascii_byte "A" <=? c) && (c <=? ascii_byte "Z"))
  || ((ascii_byte "a" <=? c) && (c <=? ascii_byte "z"))
  || ((ascii_byte "0" <=? c) && (c <=? ascii_byte "9"))
  || (c =? ascii_byte "_") || (c =? ascii_byte "-").

Definition matches_name_regex (name : list Z) : bool :=
  (1 <=? length name)%nat && (length name <=? 20)%nat
  && forallb in_name_class name.

End SessionName.

(** * src/src/app.rs: [is_token_valid] and its caller *)
Module Jwt.

Definition TOKEN_REFRESH_BUFFER_SECS : Z := 60.
Definition I64_MAX : Z := 2 ^ 63 - 1.

(** [serde_json::Value]; a float number carries no payload here (floats
    are never read as an [i64]). *)
Inductive Number := PosInt (n : Z) | NegInt (n : Z) | Float.
Inductive Value :=
| JNull
| JBool (b : bool)
| JNumber (n : Number)
| JString (s : string)
| JArray (items : list Value)
| JObject (fields : list (string * Value)).

Fixpoint assoc_get (key : string) (fields : list (string * Value))
  : option Value :=
  match fields with
  | [] => None
  | (k, val) :: rest => if String.eqb k key then Some val else assoc_get key rest
  end.

(** [Value::get] with a string index *)
Definition value_get (j : Value) (key : string) : option Value :=
  match j with
  | JObject fields => assoc_get key fields
  | _ => None
  end.

(** [Value::as_i64] *)
Definition as_i64 (j : Value) : option Z :=
  match j with
  | JNumber (PosInt n) => if n <=? I64_MAX then Some n else None
  | JNumber (NegInt n) => Some n
  | _ => None
  end.

(** The decoders and parsers the function takes from its crates: the
    URL_SAFE_NO_PAD and URL_SAFE engines of [base64], [std::str::from_utf8]
    and [serde_json::from_str]. *)
Record JwtPrims := {
  url_safe_no_pad_decode : string -> option bytes;
  url_safe_decode : string -> option bytes;
  from_utf8 : bytes -> option string;
  json_from_str : string -> option Value
}.

(** [token.split('.')] *)
Fixpoint split_dot (s : string) : list string :=
  match s with
  | EmptyString => [EmptyString]
  | String c rest =>
      let parts := split_dot rest in
      if Ascii.eqb c "." then EmptyString :: parts
      else match parts with
           | p :: ps => String c p :: ps
           | [] => [String c EmptyString]
           end
  end.

(** [while !padded.len().is_multiple_of(4) { padded.push('='); }]; three
    pushes always suffice. *)
Fixpoint pad_loop (fuel : nat) (padded : string) : string :=
  match fuel with
  | O => padded
  | S fuel' =>
      if (String.length padded mod 4 =? 0)%nat then padded
      else pad_loop fuel' (padded ++ "=")%string
  end.

(** [k] padding characters ['='], to state what [pad_loop] appends. *)
Fixpoint eq_padding (k : nat) : string :=
  match k with
  | O => EmptyString
  | S k' => String "=" (eq_padding k')
  end.

Section WithPrims.
Variable P : JwtPrims.

Definition decode_payload (part : string) : option bytes :=
  match url_safe_no_pad_decode P part with
  | Some b => Some b
  | None =>
      match url_safe_decode P part with
      | Some b => Some b
      | None => url_safe_decode P (pad_loop 3 part)
      end
  end.

(** [now] is [chrono::Utc::now().timestamp()]. *)
Definition is_token_valid (now : Z) (token : string) : option bool :=
  match split_dot token with
  | [_; payload_part; _] =>
      match decode_payload payload_part with
      | None => None
      | Some payload =>
          match from_utf8 P payload with
          | None => None
          | Some payload_str =>
              match json_from_str P payload_str with
              | None => None
              | Some json_value =>
                  match option_map as_i64 (value_get json_value "exp") with
                  | Some (Some exp) =>
                      Some (now + TOKEN_REFRESH_BUFFER_SECS <? exp)
                  | _ => None
                  end
              end
          end
      end
  | _ => None
  end.

(** The token-handling part of [ensure_authenticated_with_mek]. *)
Inductive RefreshOutcome :=
| RefreshOk (access_token refresh_token : string)
| RefreshInvalidGrant
| RefreshOtherError.

Inductive EnsureResult :=
| UseToken (access_token : string)
| RunDeviceFlow.

Definition ensure_authenticated_with_mek (now : Z) (mek : option bytes)
    (tokens : option (string * string))
    (refresh_token : string -> RefreshOutcome) : EnsureResult :=
  match tokens with
  | None => RunDeviceFlow
  | Some (access_token, refresh_token_val) =>
      match mek with
      | None => RunDeviceFlow
      | Some _ =>
          match is_token_valid now access_token with
          | Some true => UseToken access_token
          | None => UseToken access_token
          | Some false =>
              match refresh_token refresh_token_val with
              | RefreshOk a _ => UseToken a
              | RefreshInvalidGrant => RunDeviceFlow
              | RefreshOtherError => UseToken access_token
              end
          end
      end
  end.

End WithPrims.
End Jwt.

(** * src/src/auth.rs: device-flow polling and its restart wrapper *)
Module DeviceFlow.

(** [auth::AuthError], with the variants the two functions produce. *)
Inductive AuthError :=
| Cancelled
| Skipped
| ExpiredToken
| AccessDenied (description : string)
| ServerError (message : string)
| ParseError (message : string)
| NetworkError.

Inductive AuthResult :=
| AuthOk (token_response : string)
| AuthErr (e : AuthError).

(** What one POST /auth/token gives back: a 2xx with its tokens, an
    OAuth error body, a body that does not parse, or a transport error. *)
Inductive TokenReply :=
| TokenSuccess (token_response : string)
| OAuthError (error : string) (error_description : option string)
| UnparsableError (message : string)
| TransportError.

(** One turn of the poll loop: the key event [event::poll]/[event::read]
    returned, if any, the time elapsed since [start_time] (ms), and the
    reply the token endpoint would give if this turn polls. *)
Record PollTick := {
  tick_key : option KeyCodec.KeyEvent;
  tick_elapsed_ms : Z;
  tick_reply : TokenReply
}.

(** [ui::animation_interval()] *)
Definition ANIMATION_INTERVAL_MS : Z := 80.

(** Intervals are seconds from the server's JSON; [u64] overflow of the
    interval arithmetic is not modelled. *)
Record PollState := {
  current_interval_secs : Z;
  ticks_until_poll : Z
}.

Inductive PollStep :=
| Continue (st : PollState)
| Stop (r : AuthResult).

Definition poll_step (expires_in : Z) (st : PollState) (tick : PollTick)
  : PollStep :=
  let key_result :=
    match tick_key tick with
    | Some ke =>
        match KeyCodec.code ke with
        | KeyCodec.Char c =>
            if (c =? 99) && KeyCodec.contains (KeyCodec.modifiers ke) KeyCodec.CONTROL
            then Some Cancelled else None
        | KeyCodec.Esc => Some Skipped
        | _ => None
        end
    | None => None
    end in
  match key_result with
  | Some e => Stop (AuthErr e)
  | None =>
  if expires_in * 1000 <=? tick_elapsed_ms tick then Stop (AuthErr ExpiredToken)
  else
  let ticks_per_poll := (current_interval_secs st * 1000) / ANIMATION_INTERVAL_MS in
  let ticks := ticks_until_poll st + 1 in
  if ticks <? ticks_per_poll then
    Continue {| current_interval_secs := current_interval_secs st;
                ticks_until_poll := ticks |}
  else
  match tick_reply tick with
  | TokenSuccess t => Stop (AuthOk t)
  | TransportError => Stop (AuthErr NetworkError)
  | UnparsableError m => Stop (AuthErr (ParseError m))
  | OAuthError err desc =>
      if String.eqb err "authorization_pending" then
        Continue {| current_interval_secs := current_interval_secs st;
                    ticks_until_poll := 0 |}
      else if String.eqb err "slow_down" then
        Continue {| current_interval_secs := current_interval_secs st + 5;
                    ticks_until_poll := 0 |}
      else if String.eqb err "expired_token" then Stop (AuthErr ExpiredToken)
      else if String.eqb err "access_denied" then
        Stop (AuthErr (AccessDenied
          (match desc with Some d => d | None => "User denied access" end)))
      else
        Stop (AuthErr (ServerError
          (err ++ ": " ++ match desc with Some d => d | None => "" end)%string))
  end
  end.

Inductive PollOutcome :=
| PollFinished (r : AuthResult)
| PollPending (st : PollState).

(** The loop over the ticks it is given; also returns the interval after
    every turn that continued. *)
Fixpoint poll_loop (expires_in : Z) (st : PollState) (ticks : list PollTick)
  : PollOutcome * list Z :=
  match ticks with
  | [] => (PollPending st, [])
  | t :: rest =>
      match poll_step expires_in st t with
      | Stop r => (PollFinished r, [])
      | Continue st' =>
          let '(o, trace) := poll_loop expires_in st' rest in
          (o, current_interval_secs st' :: trace)
      end
  end.

Definition poll_for_token (interval expires_in : Z) (ticks : list PollTick) :=
  poll_loop expires_in {| current_interval_secs := interval; ticks_until_poll := 0 |} ticks.

Record DeviceFlowResponse := {
  device_code : string;
  interval : Z;
  expires_in : Z
}.

(** One round of [authenticate]: what POST /auth/device returned and the
    ticks its poll loop then sees. *)
Definition FlowRound := ((DeviceFlowResponse + AuthError) * list PollTick)%type.

Inductive AuthenticateOutcome :=
| Finished (r : AuthResult)
| StillPolling.

(** [authenticate]; the number is how many POST /auth/device were made. *)
Fixpoint authenticate (rounds : list FlowRound) : AuthenticateOutcome * nat :=
  match rounds with
  | [] => (StillPolling, O)
  | (start, ticks) :: rest =>
      match start with
      | inr e => (Finished (AuthErr e), 1%nat)
      | inl dr =>
          match fst (poll_for_token (interval dr) (expires_in dr) ticks) with
          | PollFinished (AuthOk t) => (Finished (AuthOk t), 1%nat)
          | PollFinished (AuthErr ExpiredToken) =>
              let '(r, n) := authenticate rest in (r, S n)
          | PollFinished (AuthErr e) => (Finished (AuthErr e), 1%nat)
          | PollPending _ => (StillPolling, 1%nat)
          end
      end
  end.

End DeviceFlow.

(** * src/src/terminal.rs: [TerminalManager::draw_status_line] *)
Module StatusLine.

(** [str::is_char_boundary] on the UTF-8 bytes of a string. *)
Definition is_char_boundary (s : bytes) (index : nat) : bool :=
  if (index =? 0)%nat then true
  else match nth_error s index with
       | None => (index =? length s)%nat
       | Some b => (b <? 128) || (192 <=? b)   (* (b as i8) >= -0x40 *)
       end.

(** [&s[..end_]]: panics unless [end_] is a char boundary. *)
Definition str_slice_to (s : bytes) (end_ : nat) : outcome bytes :=
  if is_char_boundary s end_ then Done (firstn end_ s)
  else Panicked "byte index is not a char boundary".

Inductive TerminalCommand :=
| SavePosition
| MoveTo (col row : Z)
| ClearCurrentLine
| Print (text : bytes)
| RestorePosition
| Flush.

(** [cols] and [rows] are the [u16] pair from [self.size()]; [rows - 1]
    is taken with the release profile's wrap-around.  The status is given
    by its chars. *)
Definition draw_status_line (cols rows : Z) (status : list Z)
  : outcome (list TerminalCommand) :=
  let s := utf8_encode_str status in
  let display_status :=
    if (Z.to_nat cols <? length s)%nat then str_slice_to s (Z.to_nat cols)
    else Done s in
  match display_status with
  | Done d =>
      Done [SavePosition; MoveTo 0 ((rows - 1) mod 65536); ClearCurrentLine;
            Print d; RestorePosition; Flush]
  | Failed e => Failed e
  | Panicked r => Panicked r
  end.

Definition chars_of_string (s : string) : list Z :=
  map (fun a => Z.of_nat (nat_of_ascii a)) (list_ascii_of_string s).

(** U+25CF BLACK CIRCLE *)
Definition BULLET : Z := 9679.

(** The three status strings of [app::run]. *)
Definition status_attached : list Z :=
  chars_of_string (String (ascii_of_nat 27) "[2;32m")
  ++ [BULLET] ++ chars_of_string " klaas"
  ++ chars_of_string (String (ascii_of_nat 27) "[0m").
Definition status_reconnecting : list Z :=
  chars_of_string (String (ascii_of_nat 27) "[2;33m")
  ++ [BULLET] ++ chars_of_string " klaas reconnecting"
  ++ chars_of_string (String (ascii_of_nat 27) "[0m").
Definition status_offline : list Z :=
  chars_of_string (String (ascii_of_nat 27) "[2;90m")
  ++ [BULLET] ++ chars_of_string " klaas offline"
  ++ chars_of_string (String (ascii_of_nat 27) "[0m").

End StatusLine.

(** * src/src/interceptor.rs: [CommandInterceptor] *)
Module Interceptor.

Inductive InterceptorState := Normal | ReadingCommand.
Inductive Command := Attach | Detach | Status | Help.

(** [buffer] is a [String]: the list of its chars.  [command_start] is
    the instant reading started. *)
Record Interceptor := {
  state : InterceptorState;
  buffer : list Z;
  at_line_start : bool;
  command_start : option Z
}.

Definition new_interceptor : Interceptor :=
  {| state := Normal; buffer := []; at_line_start := true; command_start := None |}.

Inductive ProcessResult :=
| Forward (b : bytes)
| Buffer
| Cmd (c : Command).

Definition chars (s : string) : list Z := StatusLine.chars_of_string s.

(** [char::to_lowercase] on the chars a buffer can hold (every one is a
    byte cast to [char], so at most U+00FF): ASCII and Latin-1 capitals
    map to their small letters. *)
Definition char_to_lowercase (c : Z) : Z :=
  if ((65 <=? c) && (c <=? 90)) || ((192 <=? c) && (c <=? 222) && negb (c =? 215))
  then c + 32 else c.

(** [char::is_whitespace] on chars up to U+00FF. *)
Definition is_whitespace (c : Z) : bool :=
  ((9 <=? c) && (c <=? 13)) || (c =? 32) || (c =? 133) || (c =? 160).

Fixpoint trim_start (s : list Z) : list Z :=
  match s with
  | c :: rest => if is_whitespace c then trim_start rest else s
  | [] => []
  end.

Definition trim (s : list Z) : list Z := rev (trim_start (rev (trim_start s))).

Definition list_Z_eqb (a b : list Z) : bool :=
  (length a =? length b)%nat && forallb (fun p => fst p =? snd p) (combine a b).

Fixpoint strip_prefix (prefix s : list Z) : option (list Z) :=
  match prefix, s with
  | [], _ => Some s
  | p :: ps, c :: cs => if p =? c then strip_prefix ps cs else None
  | _ :: _, [] => None
  end.

Definition COMMAND_PREFIX : list Z := chars "nexo ".

Definition match_command (st : Interceptor) : option Command :=
  let input := map char_to_lowercase (buffer st) in
  let trimmed := trim input in
  if list_Z_eqb trimmed (chars "nexo") then Some Help
  else
  match strip_prefix COMMAND_PREFIX input with
  | None => None
  | Some rest =>
      let cmd := trim rest in
      if list_Z_eqb cmd (chars "attach") then Some Attach
      else if list_Z_eqb cmd (chars "detach") then Some Detach
      else if list_Z_eqb cmd (chars "status") then Some Status
      else if list_Z_eqb cmd (chars "help") then Some Help
      else if list_Z_eqb cmd [] then Some Help
      else None
  end.

Definition process_normal (now : Z) (st : Interceptor) (byte : Z)
  : Interceptor * ProcessResult :=
  if (byte =? 47) && at_line_start st then
    ({| state := ReadingCommand; buffer := []; at_line_start := at_line_start st;
        command_start := Some now |}, Buffer)
  else if (byte =? 10) || (byte =? 13) then
    ({| state := state st; buffer := buffer st; at_line_start := true;
        command_start := command_start st |}, Forward [byte])
  else
    ({| state := state st; buffer := buffer st; at_line_start := false;
        command_start := command_start st |}, Forward [byte]).

(** [String::pop] drops the last char. *)
Definition pop_last (s : list Z) : list Z := removelast s.

Definition process_reading (st : Interceptor) (byte : Z)
  : Interceptor * ProcessResult :=
  if (byte =? 10) || (byte =? 13) then
    let st1 := {| state := Normal; buffer := buffer st; at_line_start := true;
                  command_start := None |} in
    match match_command st1 with
    | Some cmd => (st1, Cmd cmd)
    | None =>
        (* bytes = [b'/'] ++ self.buffer.bytes() ++ [byte] *)
        let out := [47] ++ utf8_encode_str (buffer st1) ++ [byte] in
        ({| state := Normal; buffer := []; at_line_start := true;
            command_start := None |}, Forward out)
    end
  else if (byte =? 127) || (byte =? 8) then
    match buffer st with
    | [] => ({| state := Normal; buffer := []; at_line_start := at_line_start st;
                command_start := None |}, Forward [47; byte])
    | _ => ({| state := state st; buffer := pop_last (buffer st);
               at_line_start := at_line_start st;
               command_start := command_start st |}, Buffer)
    end
  else
    (* self.buffer.push(byte as char) *)
    ({| state := state st; buffer := buffer st ++ [byte];
        at_line_start := at_line_start st; command_start := command_start st |},
     Buffer).

Definition process_byte (now : Z) (st : Interceptor) (byte : Z) :=
  match state st with
  | Normal => process_normal now st byte
  | ReadingCommand => process_reading st byte
  end.

Definition flush_buffer (st : Interceptor) : Interceptor * bytes :=
  ({| state := Normal; buffer := []; at_line_start := false; command_start := None |},
   [47] ++ utf8_encode_str (buffer st)).

(** [check_timeout] at instant [now] (ms); [COMMAND_TIMEOUT_MS] is
    imported from [crate::config], which does not define it, so it is a
    parameter. *)
Definition check_timeout (COMMAND_TIMEOUT_MS now : Z) (st : Interceptor)
  : Interceptor * option bytes :=
  match state st with
  | ReadingCommand =>
      match command_start st with
      | Some start =>
          if COMMAND_TIMEOUT_MS <? now - start then
            let '(st', b) := flush_buffer st in (st', Some b)
          else (st, None)
      | None => (st, None)
      end
  | Normal => (st, None)
  end.

(** [process]: the bytes forwarded and the commands sent on [cmd_tx]. *)
Fixpoint process (now : Z) (st : Interceptor) (input : bytes)
  : Interceptor * bytes * list Command :=
  match input with
  | [] => (st, [], [])
  | byte :: rest =>
      let '(st1, r) := process_byte now st byte in
      let '(st2, fwd, cmds) := process now st1 rest in
      match r with
      | Forward b => (st2, b ++ fwd, cmds)
      | Buffer => (st2, fwd, cmds)
      | Cmd c => (st2, fwd, c :: cmds)
      end
  end.

End Interceptor.

(** * packages/cli/src/crypto.rs: the password-wrapped MEK and the
    pairing envelope *)
Module CryptoMek.
Import Crypto.

Definition SALT_SIZE : nat := 16.
Definition PAIRING_KEY_INFO : string := "klaas-pairing-v1".

(** The further primitives: [Argon2::hash_password_into] with the
    module's parameters (password bytes, salt, output length; an error
    carries its display text), [EncodedPoint::from_bytes] (SEC1 parsing),
    [PublicKey::from_encoded_point] (the point check) and the raw
    secret of [EphemeralSecret::diffie_hellman]. *)
Record KdfPrims := {
  argon2id_hash : bytes -> bytes -> nat -> bytes + string;
  sec1_encoded_point : bytes -> bytes + string;
  p256_public_key : bytes -> option bytes;
  p256_diffie_hellman : bytes -> bytes -> bytes
}.

(** [StoredMEK]: every field but [v] is base64 text. *)
Record StoredMEK := {
  v : Z;
  salt : string;
  nonce : string;
  encrypted_mek : string;
  tag : string
}.

(** [EncryptedMEK] as the dashboard sends it during pairing. *)
Record EncryptedMEK := {
  em_v : Z;
  em_nonce : string;
  em_ciphertext : string;
  em_tag : string
}.

Section WithPrims.
Variable P : CryptoPrims.
Variable K : KdfPrims.

(** [derive_kek]: [Params::new(65536, 3, 4, Some(32))] accepts these
    constants, so only the hashing can fail.  The password is a [&str]
    given by its chars. *)
Definition derive_kek (password : list Z) (salt_arr : bytes) : outcome SecretKey :=
  match argon2id_hash K (utf8_encode_str password) salt_arr KEY_SIZE with
  | inl kek => Done kek
  | inr e => Failed (CryptoError ("Argon2 hashing failed: " ++ e)%string)
  end.

(** [encrypt_mek], with the nonce [aes_gcm_encrypt] drew. *)
Definition encrypt_mek (kek mek : SecretKey) (salt_arr : bytes)
    (nonce_bytes : bytes) : outcome StoredMEK :=
  match aes_gcm_encrypt P kek nonce_bytes mek with
  | Done (ct, n, t) =>
      Done {| v := 1; salt := base64_encode P salt_arr; nonce := base64_encode P n;
              encrypted_mek := base64_encode P ct; tag := base64_encode P t |}
  | Failed _ => Panicked "MEK encryption should not fail"
  | Panicked r => Panicked r
  end.

Definition decrypt_mek (stored : StoredMEK) (password : list Z)
  : outcome SecretKey :=
  if negb (v stored =? 1)
  then Failed (CryptoError "Unsupported MEK format version")
  else
  match base64_decode P (salt stored) with
  | Failed e => Failed e | Panicked r => Panicked r
  | Done salt_v =>
  match base64_decode P (nonce stored) with
  | Failed e => Failed e | Panicked r => Panicked r
  | Done nonce_v =>
  match base64_decode P (encrypted_mek stored) with
  | Failed e => Failed e | Panicked r => Panicked r
  | Done encrypted_mek_v =>
  match base64_decode P (tag stored) with
  | Failed e => Failed e | Panicked r => Panicked r
  | Done tag_v =>
  if negb (length salt_v =? SALT_SIZE)%nat
  then Failed (CryptoError "Invalid salt size")
  else if negb (length nonce_v =? NONCE_SIZE)%nat
  then Failed (CryptoError "Invalid nonce size")
  else if negb (length encrypted_mek_v =? KEY_SIZE)%nat
  then Failed (CryptoError "Invalid encrypted MEK size")
  else if negb (length tag_v =? TAG_SIZE)%nat
  then Failed (CryptoError "Invalid tag size")
  else
  match copy_from_slice SALT_SIZE salt_v with
  | Failed e => Failed e | Panicked r => Panicked r
  | Done salt_arr =>
  match copy_from_slice NONCE_SIZE nonce_v with
  | Failed e => Failed e | Panicked r => Panicked r
  | Done nonce_arr =>
  match copy_from_slice TAG_SIZE tag_v with
  | Failed e => Failed e | Panicked r => Panicked r
  | Done tag_arr =>
  match derive_kek password salt_arr with
  | Failed e => Failed e | Panicked r => Panicked r
  | Done kek =>
  match aes_gcm_decrypt P kek encrypted_mek_v nonce_arr tag_arr with
  | Failed e => Failed e | Panicked r => Panicked r
  | Done mek_bytes =>
  if negb (length mek_bytes =? KEY_SIZE)%nat
  then Failed (CryptoError "Decrypted MEK has wrong size")
  else copy_from_slice KEY_SIZE mek_bytes
  end end end end end end end end end.

(** [compute_ecdh_shared_key]: HKDF-SHA256 with no salt over the raw
    shared secret; expanding to 32 bytes cannot fail. *)
Definition compute_ecdh_shared_key (private_key their_public_key_bytes : bytes)
  : outcome SecretKey :=
  match sec1_encoded_point K their_public_key_bytes with
  | inr e => Failed (CryptoError ("Invalid public key format: " ++ e)%string)
  | inl encoded_point =>
      match p256_public_key K encoded_point with
      | None => Failed (CryptoError "Invalid public key point")
      | Some their_public_key =>
          let shared_secret := p256_diffie_hellman K private_key their_public_key in
          Done (hkdf_sha256_expand P shared_secret
                  (bytes_of_string PAIRING_KEY_INFO) KEY_SIZE)
      end
  end.

Definition decrypt_mek_from_pairing (private_key dash_public_key : bytes)
    (encrypted : EncryptedMEK) : outcome SecretKey :=
  if negb (em_v encrypted =? 1)
  then Failed (CryptoError "Unsupported encrypted MEK version")
  else
  match compute_ecdh_shared_key private_key dash_public_key with
  | Failed e => Failed e | Panicked r => Panicked r
  | Done shared_key =>
  match base64_decode P (em_nonce encrypted) with
  | Failed e => Failed e | Panicked r => Panicked r
  | Done nonce_v =>
  match base64_decode P (em_ciphertext encrypted) with
  | Failed e => Failed e | Panicked r => Panicked r
  | Done ciphertext_v =>
  match base64_decode P (em_tag encrypted) with
  | Failed e => Failed e | Panicked r => Panicked r
  | Done tag_v =>
  if negb (length nonce_v =? NONCE_SIZE)%nat
  then Failed (CryptoError "Invalid nonce size")
  else if negb (length tag_v =? TAG_SIZE)%nat
  then Failed (CryptoError "Invalid tag size")
  else
  match copy_from_slice NONCE_SIZE nonce_v with
  | Failed e => Failed e | Panicked r => Panicked r
  | Done nonce_arr =>
  match copy_from_slice TAG_SIZE tag_v with
  | Failed e => Failed e | Panicked r => Panicked r
  | Done tag_arr =>
  match aes_gcm_decrypt P shared_key ciphertext_v nonce_arr tag_arr with
  | Failed e => Failed e | Panicked r => Panicked r
  | Done mek_bytes =>
  if negb (length mek_bytes =? KEY_SIZE)%nat
  then Failed (CryptoError "Decrypted MEK has wrong size")
  else copy_from_slice KEY_SIZE mek_bytes
  end end end end end end end.

End WithPrims.
End CryptoMek.

(** [String::from_utf8]: whether a byte sequence is well-formed UTF-8
    (shortest forms only, no surrogates, at most U+10FFFF). *)
Module Utf8.

Definition in_range (lo hi b : Z) : bool := (lo <=? b) && (b <=? hi).
Definition is_cont (b : Z) : bool := in_range 128 191 b.

Fixpoint utf8_valid (s : bytes) : bool :=
  match s with
  | [] => true
  | b0 :: rest =>
      if in_range 0 127 b0 then utf8_valid rest
      else if in_range 194 223 b0 then
        match rest with
        | b1 :: rest' => is_cont b1 && utf8_valid rest'
        | _ => false
        end
      else if in_range 224 239 b0 then
        match rest with
        | b1 :: b2 :: rest' =>
            (if b0 =? 224 then in_range 160 191 b1
             else if b0 =? 237 then in_range 128 159 b1
             else is_cont b1) && is_cont b2 && utf8_valid rest'
        | _ => false
        end
      else if in_range 240 244 b0 then
        match rest with
        | b1 :: b2 :: b3 :: rest' =>
            (if b0 =? 240 then in_range 144 191 b1
             else if b0 =? 244 then in_range 128 143 b1
             else is_cont b1) && is_cont b2 && is_cont b3 && utf8_valid rest'
        | _ => false
        end
      else false
  end.

(** A Rust [char]: a Unicode scalar value. *)
Definition is_scalar_value (c : Z) : bool :=
  ((0 <=? c) && (c <? 55296)) || ((57343 <? c) && (c <=? 1114111)).

End Utf8.

(** * src/src/websocket.rs: [WebSocketClient] *)
Module WsClient.

(** [OutgoingMessage] (CLI to server). *)
Module OutgoingMessage.
Inductive t :=
| SessionAttach (session_id device_id device_name cwd : string) (name : option string)
| Output (session_id data timestamp : string)
| EncryptedOutput (session_id : string) (encrypted : Crypto.EncryptedContent)
    (timestamp : string)
| SessionDetach (session_id : string)
| Pong.
End OutgoingMessage.

(** [IncomingMessage] (server to CLI). *)
Module IncomingMessage.
Inductive t :=
| Prompt (session_id : string) (encrypted : Crypto.EncryptedContent)
    (source timestamp : string)
| Resize (session_id : string) (cols rows : Z)
| Ping
| Error (code message : string).
End IncomingMessage.

(** [tungstenite::Message]; a text payload is given by its UTF-8 bytes,
    a close frame by its code and reason. *)
Module Message.
Inductive t :=
| Text (text : bytes)
| Binary (data : bytes)
| Ping (data : bytes)
| Pong (data : bytes)
| Close (frame : option (Z * string))
| Frame (raw : bytes).
End Message.

(** The fields of the client fixed at [connect]. *)
Record Config := {
  session_id : string;
  device_id : string;
  device_name : string;
  cwd : string;
  session_name : option string
}.

(** The mutable state behind the client's mutexes: whether [sender] and
    [receiver] hold the halves of a stream, the queue, the flags and the
    keys.  [sent] records, oldest first, every frame a sink accepted. *)
Record WebSocketClient := {
  cfg : Config;
  sender_present : bool;
  receiver_present : bool;
  message_queue : list (@Queue.QueuedMessage OutgoingMessage.t);
  is_connected : bool;
  reconnect_attempt : Z;
  mek : option Crypto.SecretKey;
  session_key : option Crypto.SecretKey;
  sent : list Message.t
}.

Definition set_sent (c : WebSocketClient) (s : list Message.t) : WebSocketClient :=
  {| cfg := cfg c; sender_present := sender_present c;
     receiver_present := receiver_present c; message_queue := message_queue c;
     is_connected := is_connected c; reconnect_attempt := reconnect_attempt c;
     mek := mek c; session_key := session_key c; sent := s |}.

Definition set_queue (c : WebSocketClient) q : WebSocketClient :=
  {| cfg := cfg c; sender_present := sender_present c;
     receiver_present := receiver_present c; message_queue := q;
     is_connected := is_connected c; reconnect_attempt := reconnect_attempt c;
     mek := mek c; session_key := session_key c; sent := sent c |}.

Definition set_connected (c : WebSocketClient) (b : bool) : WebSocketClient :=
  {| cfg := cfg c; sender_present := sender_present c;
     receiver_present := receiver_present c; message_queue := message_queue c;
     is_connected := b; reconnect_attempt := reconnect_attempt c;
     mek := mek c; session_key := session_key c; sent := sent c |}.

Definition set_attempt (c : WebSocketClient) (n : Z) : WebSocketClient :=
  {| cfg := cfg c; sender_present := sender_present c;
     receiver_present := receiver_present c; message_queue := message_queue c;
     is_connected := is_connected c; reconnect_attempt := n;
     mek := mek c; session_key := session_key c; sent := sent c |}.

Definition set_mek_field (c : WebSocketClient) (m : option Crypto.SecretKey)
  : WebSocketClient :=
  {| cfg := cfg c; sender_present := sender_present c;
     receiver_present := receiver_present c; message_queue := message_queue c;
     is_connected := is_connected c; reconnect_attempt := reconnect_attempt c;
     mek := m; session_key := session_key c; sent := sent c |}.

Definition set_session_key (c : WebSocketClient) (k : option Crypto.SecretKey)
  : WebSocketClient :=
  {| cfg := cfg c; sender_present := sender_present c;
     receiver_present := receiver_present c; message_queue := message_queue c;
     is_connected := is_connected c; reconnect_attempt := reconnect_attempt c;
     mek := mek c; session_key := k; sent := sent c |}.

(** The streams stored by [do_connect]. *)
Definition install_stream (c : WebSocketClient) : WebSocketClient :=
  {| cfg := cfg c; sender_present := true; receiver_present := true;
     message_queue := message_queue c; is_connected := true;
     reconnect_attempt := 0; mek := mek c; session_key := session_key c;
     sent := sent c |}.

(** The client [connect] builds before its first [do_connect]. *)
Definition new_client (config : Config) : WebSocketClient :=
  {| cfg := config; sender_present := false; receiver_present := false;
     message_queue := []; is_connected := false; reconnect_attempt := 0;
     mek := None; session_key := None; sent := [] |}.

(** The fields that only [set_mek], [clear_mek] and the key cache
    change. *)
Definition keys_of (c : WebSocketClient) :=
  (cfg c, mek c, session_key c).

Section WithEnv.
Variable P : Crypto.CryptoPrims.
(** [serde_json::to_string] (it cannot fail on these types) and
    [serde_json::from_str::<IncomingMessage>] on UTF-8 text. *)
Variable to_json : OutgoingMessage.t -> bytes.
Variable from_json : bytes -> option IncomingMessage.t.
(** Whether [sender.send] succeeds on a frame. *)
Variable send_ok : Message.t -> bool.

Definition sink_send (c : WebSocketClient) (m : Message.t) : WebSocketClient * bool :=
  if send_ok m then (set_sent c (sent c ++ [m]), true) else (c, false).

Definition queue_message (now : Z) (msg : OutgoingMessage.t) (c : WebSocketClient)
  : WebSocketClient :=
  set_queue c (Queue.queue_message now msg (message_queue c)).

Definition send_message (now : Z) (c : WebSocketClient) (msg : OutgoingMessage.t)
  : WebSocketClient * outcome unit :=
  if negb (is_connected c) then (queue_message now msg c, Done tt)
  else if sender_present c then
    let '(c1, ok) := sink_send c (Message.Text (to_json msg)) in
    (c1, if ok then Done tt else Failed (WebSocketError "Failed to send"))
  else (queue_message now msg c, Done tt).

Definition drain_message_queue (now : Z) (c : WebSocketClient)
  : WebSocketClient * outcome unit :=
  let '(sent_q, remaining, ok) :=
    Queue.drain_message_queue now (sender_present c)
      (fun m => send_ok (Message.Text (to_json m))) (message_queue c) in
  let c1 := set_sent c
      (sent c ++ map (fun q => Message.Text (to_json (Queue.message q))) sent_q) in
  (set_queue c1 remaining,
   if ok then Done tt else Failed (WebSocketError "Failed to drain queue")).

(** [do_connect]: [connect_result] is the outcome of building the request,
    the auth header and [connect_async]. *)
Definition do_connect (now : Z) (connect_result : outcome unit) (c : WebSocketClient)
  : WebSocketClient * outcome unit :=
  match connect_result with
  | Done _ => drain_message_queue now (install_stream c)
  | Failed e => (c, Failed e)
  | Panicked r => (c, Panicked r)
  end.

Definition attach_message (c : WebSocketClient) : OutgoingMessage.t :=
  OutgoingMessage.SessionAttach (session_id (cfg c)) (device_id (cfg c))
    (device_name (cfg c)) (cwd (cfg c)) (session_name (cfg c)).

Definition send_session_attach (now : Z) (c : WebSocketClient) :=
  send_message now c (attach_message c).

(** [connect]; [connect_result] also covers [Url::parse]. *)
Definition connect (now : Z) (connect_result : outcome unit) (config : Config)
  : outcome WebSocketClient :=
  let '(c1, r1) := do_connect now connect_result (new_client config) in
  match r1 with
  | Done _ =>
      let '(c2, r2) := send_session_attach now c1 in
      match r2 with
      | Done _ => Done c2
      | Failed e => Failed e
      | Panicked r => Panicked r
      end
  | Failed e => Failed e
  | Panicked r => Panicked r
  end.

Definition get_or_derive_session_key (c : WebSocketClient)
  : WebSocketClient * option Crypto.SecretKey :=
  match session_key c with
  | Some k => (c, Some k)
  | None =>
      match mek c with
      | Some m =>
          let derived_key := Crypto.derive_session_key P m (session_id (cfg c)) in
          (set_session_key c (Some derived_key), Some derived_key)
      | None => (c, None)
      end
  end.

(** [send_output] with the nonce [encrypt_content] draws and the RFC 3339
    timestamp. *)
Definition send_output (now : Z) (nonce_bytes : bytes) (timestamp : string)
    (c : WebSocketClient) (data : bytes) : WebSocketClient * outcome unit :=
  let '(c1, sk) := get_or_derive_session_key c in
  match sk with
  | None => (c1, Panicked "MEK should always be available for E2EE")
  | Some k =>
      match Crypto.encrypt_content P k nonce_bytes data with
      | Done encrypted =>
          send_message now c1
            (OutgoingMessage.EncryptedOutput (session_id (cfg c1)) encrypted timestamp)
      | Failed e => (c1, Failed e)
      | Panicked r => (c1, Panicked r)
      end
  end.

Definition send_pong (now : Z) (c : WebSocketClient) :=
  send_message now c OutgoingMessage.Pong.

Definition send_session_detach (now : Z) (c : WebSocketClient) :=
  send_message now c (OutgoingMessage.SessionDetach (session_id (cfg c))).

Definition handle_raw_message (c : WebSocketClient) (msg : Message.t)
  : WebSocketClient * outcome (option IncomingMessage.t) :=
  match msg with
  | Message.Text text =>
      (c, match from_json text with
          | Some parsed => Done (Some parsed)
          | None => Failed (WebSocketError "Failed to parse message")
          end)
  | Message.Binary data =>
      if Utf8.utf8_valid data then
        (c, match from_json data with
            | Some parsed => Done (Some parsed)
            | None => Failed (WebSocketError "Failed to parse binary message")
            end)
      else (c, Failed (WebSocketError "Invalid UTF-8 in binary message"))
  | Message.Ping data =>
      if sender_present c then (fst (sink_send c (Message.Pong data)), Done None)
      else (c, Done None)
  | Message.Pong _ => (c, Done None)
  | Message.Close _ => (set_connected c false, Done None)
  | Message.Frame _ => (c, Done None)
  end.

(** [recv]: [next] is what [receiver.next()] yields: a frame, a stream
    error (its display text) or the end of the stream. *)
Definition recv (next : option (Message.t + string)) (c : WebSocketClient)
  : WebSocketClient * outcome (option IncomingMessage.t) :=
  if negb (receiver_present c) then (c, Failed (WebSocketError "Not connected"))
  else
  match next with
  | Some (inl msg) => handle_raw_message c msg
  | Some (inr e) =>
      (set_connected c false, Failed (WebSocketError ("Receive error: " ++ e)%string))
  | None => (set_connected c false, Done None)
  end.

(** [reconnect] at instant [now]; it sleeps for the backoff delay before
    [do_connect]. *)
Definition reconnect (now jitter : Z) (connect_result : outcome unit)
    (c : WebSocketClient) : WebSocketClient * outcome bool :=
  match Backoff.reconnect (reconnect_attempt c) jitter with
  | Backoff.GiveUp => (c, Done false)
  | Backoff.SleepThenConnect current_attempt delay =>
      let c1 := set_attempt c current_attempt in
      let '(c2, r) := do_connect (now + delay) connect_result c1 in
      match r with
      | Done _ =>
          let '(c3, r3) := send_session_attach (now + delay) c2 in
          (c3, match r3 with
               | Done _ => Done true
               | Failed e => Failed e
               | Panicked p => Panicked p
               end)
      | Failed e => (c2, Failed e)
      | Panicked p => (c2, Panicked p)
      end
  end.

Definition close (now : Z) (c : WebSocketClient) : WebSocketClient * outcome unit :=
  let c1 := if is_connected c then fst (send_session_detach now c) else c in
  let c2 := if sender_present c1 then fst (sink_send c1 (Message.Close None)) else c1 in
  (set_connected c2 false, Done tt).

Definition set_mek (c : WebSocketClient) (m : Crypto.SecretKey) : WebSocketClient :=
  set_mek_field (set_session_key c None) (Some m).

Definition clear_mek (c : WebSocketClient) : WebSocketClient :=
  set_mek_field (set_session_key c None) None.

Definition is_e2ee_enabled (c : WebSocketClient) : bool :=
  match mek c with Some _ => true | None => false end.

(** [decrypt_prompt]; the [String] it returns is given by its bytes. *)
Definition decrypt_prompt (c : WebSocketClient) (encrypted : Crypto.EncryptedContent)
  : WebSocketClient * outcome bytes :=
  let '(c1, sk) := get_or_derive_session_key c in
  match sk with
  | None =>
      (c1, Failed (CryptoError "Cannot decrypt: E2EE not enabled (no MEK set)"))
  | Some k =>
      (c1, match Crypto.decrypt_content P k encrypted with
           | Done plaintext =>
               if Utf8.utf8_valid plaintext then Done plaintext
               else Failed (CryptoError "Decrypted content is not valid UTF-8")
           | Failed e => Failed e
           | Panicked r => Panicked r
           end)
  end.

(** src/src/app.rs, [connect_websocket]: [None] when [connect] fails;
    otherwise the client with the MEK set. *)
Definition connect_websocket (now : Z) (connect_result : outcome unit) (config : Config)
    (m : Crypto.SecretKey) : option WebSocketClient :=
  match connect now connect_result config with
  | Done client => Some (set_mek client m)
  | Failed _ => None
  | Panicked _ => None
  end.

(** A call of one of the client's public methods, with what the
    environment supplies to it. *)
Inductive ClientOp :=
| SendOutput (now : Z) (nonce_bytes : bytes) (timestamp : string) (data : bytes)
| DecryptPrompt (encrypted : Crypto.EncryptedContent)
| SetMek (m : Crypto.SecretKey)
| ClearMek
| Recv (next : option (Message.t + string))
| SendPong (now : Z)
| SendSessionDetach (now : Z)
| Reconnect (now jitter : Z) (connect_result : outcome unit)
| Close (now : Z).

Definition run_op (c : WebSocketClient) (op : ClientOp) : WebSocketClient :=
  match op with
  | SendOutput now n ts data => fst (send_output now n ts c data)
  | DecryptPrompt enc => fst (decrypt_prompt c enc)
  | SetMek m => set_mek c m
  | ClearMek => clear_mek c
  | Recv next => fst (recv next c)
  | SendPong now => fst (send_pong now c)
  | SendSessionDetach now => fst (send_session_detach now c)
  | Reconnect now jitter r => fst (reconnect now jitter r c)
  | Close now => fst (close now c)
  end.

Definition run_ops (c : WebSocketClient) (ops : list ClientOp) : WebSocketClient :=
  fold_left run_op ops c.

(** The cached session key, when there is one, is the key derived from
    the current MEK. *)
Definition session_key_consistent (c : WebSocketClient) : Prop :=
  forall k, session_key c = Some k ->
    exists m, mek c = Some m /\ k = Crypto.derive_session_key P m (session_id (cfg c)).

End WithEnv.
End WsClient.

(** * src/src/guest/terminal.rs: the guest client *)
Module Guest.

Module GuestOutgoingMessage.
Inductive t :=
| EncryptedPrompt (session_id : string) (encrypted : Crypto.EncryptedContent)
    (timestamp : string)
| Pong.
End GuestOutgoingMessage.

(** Texts shown to the user are given by their chars. *)
Module SessionInfo.
Record t := {
  session_id : string;
  cols : Z;
  rows : Z;
  device_name : option (list Z);
  cwd : option (list Z)
}.
End SessionInfo.

Module HistoryEntry.
Record t := {
  encrypted : Crypto.EncryptedContent;
  timestamp : string
}.
End HistoryEntry.

Module HistoryBatch.
Record t := {
  session_id : string;
  entries : list HistoryEntry.t
}.
End HistoryBatch.

Module ModeChange.
Record t := {
  session_id : string;
  mode : list Z;
  message : option (list Z)
}.
End ModeChange.

Module GuestIncomingMessage.
Inductive t :=
| SessionInfo (info : SessionInfo.t)
| History (batch : HistoryBatch.t)
| EncryptedOutput (session_id : string) (encrypted : Crypto.EncryptedContent)
    (timestamp : string)
| ModeChange (mode_change : ModeChange.t)
| SessionDetached (session_id : string) (reason : option (list Z))
| Ping
| Error (code message : list Z).
End GuestIncomingMessage.

(** [GuestClient]: [sent] records the frames the sink accepted. *)
Record GuestClient := {
  sender_present : bool;
  receiver_present : bool;
  session_id : string;
  session_key : Crypto.SecretKey;
  sent : list WsClient.Message.t
}.

(** [format!("{}", n)] for a non-negative integer. *)
Fixpoint digits_fuel (fuel : nat) (n : Z) (acc : list Z) : list Z :=
  match fuel with
  | O => acc
  | S f =>
      let acc' := (48 + n mod 10) :: acc in
      if n <? 10 then acc' else digits_fuel f (n / 10) acc'
  end.

Definition decimal (n : Z) : list Z := digits_fuel 20 n [].

Definition chars (s : string) : list Z := StatusLine.chars_of_string s.

(** The text [display_notification] writes for a message. *)
Definition notification (message : list Z) : bytes :=
  utf8_encode_str
    (chars (String (ascii_of_nat 27) "7") ++ [13; 10; 27]
     ++ chars "[38;2;245;158;11m[klaas] " ++ message
     ++ [27] ++ chars "[0m" ++ [13; 10; 27] ++ chars "8").

(** The outcome of [handle_incoming_message]: [Ok(b)], an I/O error of
    [write_to_stdout], or a panic. *)
Inductive HandleOutcome :=
| HandleOk (continue : bool)
| IoFailed
| HandlePanicked (reason : string).

(** A key or paste event of the terminal. *)
Inductive Event :=
| Key (key_event : KeyCodec.KeyEvent)
| Paste (text : list Z)
| OtherEvent.

Section WithEnv.
Variable P : Crypto.CryptoPrims.
Variable to_json : GuestOutgoingMessage.t -> bytes.
Variable send_ok : WsClient.Message.t -> bool.
(** Whether writing a byte string to stdout succeeds. *)
Variable stdout_ok : bytes -> bool.

(** [GuestClient::connect]: [connect_result] is the outcome of parsing
    the URL, building the request and [connect_async]. *)
Definition connect (connect_result : outcome unit) (sid : string)
    (mek : Crypto.SecretKey) : outcome GuestClient :=
  match connect_result with
  | Done _ =>
      Done {| sender_present := true; receiver_present := true; session_id := sid;
              session_key := Crypto.derive_session_key P mek sid; sent := [] |}
  | Failed e => Failed e
  | Panicked r => Panicked r
  end.

Definition send_message (c : GuestClient) (msg : GuestOutgoingMessage.t)
  : GuestClient * outcome unit :=
  if sender_present c then
    let frame := WsClient.Message.Text (to_json msg) in
    if send_ok frame then
      ({| sender_present := sender_present c; receiver_present := receiver_present c;
          session_id := session_id c; session_key := session_key c;
          sent := sent c ++ [frame] |}, Done tt)
    else (c, Failed (WebSocketError "Failed to send"))
  else (c, Done tt).

(** [send_prompt]: [text] is given by its UTF-8 bytes ([text.as_bytes()]). *)
Definition send_prompt (nonce_bytes : bytes) (timestamp : string) (c : GuestClient)
    (text : bytes) : GuestClient * outcome unit :=
  match Crypto.encrypt_content P (session_key c) nonce_bytes text with
  | Done encrypted =>
      send_message c (GuestOutgoingMessage.EncryptedPrompt (session_id c) encrypted timestamp)
  | Failed e => (c, Failed e)
  | Panicked r => (c, Panicked r)
  end.

Definition decrypt (c : GuestClient) (encrypted : Crypto.EncryptedContent) : outcome bytes :=
  Crypto.decrypt_content P (session_key c) encrypted.

(** Writes [data], then continues with [k]; the bytes written, in order. *)
Definition write_then (data : bytes) (k : list bytes * HandleOutcome)
  : list bytes * HandleOutcome :=
  if stdout_ok data then (data :: fst k, snd k) else ([], IoFailed).

Definition display_notification_then (message : list Z) (k : list bytes * HandleOutcome) :=
  write_then (notification message) k.

Fixpoint replay_history (c : GuestClient) (entries : list HistoryEntry.t)
  : list bytes * HandleOutcome :=
  match entries with
  | [] => ([], HandleOk true)
  | entry :: rest =>
      match decrypt c (HistoryEntry.encrypted entry) with
      | Done data => write_then data (replay_history c rest)
      | Failed _ => replay_history c rest
      | Panicked r => ([], HandlePanicked r)
      end
  end.

Definition handle_incoming_message (c : GuestClient) (msg : GuestIncomingMessage.t)
  : list bytes * HandleOutcome :=
  match msg with
  | GuestIncomingMessage.SessionInfo info =>
      let device_info :=
        match SessionInfo.device_name info with
        | Some d => chars " from " ++ d
        | None => []
        end in
      display_notification_then
        (chars "Session " ++ decimal (SessionInfo.cols info) ++ chars "x"
         ++ decimal (SessionInfo.rows info) ++ device_info ++ chars " "
         ++ match SessionInfo.cwd info with Some w => w | None => [] end)
        ([], HandleOk true)
  | GuestIncomingMessage.History batch => replay_history c (HistoryBatch.entries batch)
  | GuestIncomingMessage.EncryptedOutput _ encrypted _ =>
      match decrypt c encrypted with
      | Done data => write_then data ([], HandleOk true)
      | Failed _ => ([], HandleOk true)
      | Panicked r => ([], HandlePanicked r)
      end
  | GuestIncomingMessage.ModeChange mc =>
      let message :=
        match ModeChange.message mc with
        | Some m => chars ": " ++ m
        | None => []
        end in
      display_notification_then (chars "Mode: " ++ ModeChange.mode mc ++ message)
        ([], HandleOk true)
  | GuestIncomingMessage.SessionDetached _ reason =>
      let reason_msg :=
        match reason with
        | Some r => chars ": " ++ r
        | None => []
        end in
      display_notification_then (chars "Session detached" ++ reason_msg)
        ([], HandleOk false)
  | GuestIncomingMessage.Ping => ([], HandleOk true)
  | GuestIncomingMessage.Error code message =>
      display_notification_then
        (chars "Error [" ++ code ++ chars "]: " ++ message) ([], HandleOk true)
  end.

End WithEnv.

(** What one terminal event does in [run_event_loop]: the loop returns,
    a prompt is sent, or nothing leaves the client. *)
Inductive InputAction :=
| Disconnect
| SendPrompt (text : bytes)
| NoAction.

(** The input buffer is a [String], given by its UTF-8 bytes. *)
Definition handle_input_event (input_buffer : bytes) (ev : Event)
  : bytes * InputAction :=
  match ev with
  | Key key_event =>
      if KeyCodec.contains (KeyCodec.modifiers key_event) KeyCodec.CONTROL
         && match KeyCodec.code key_event with
            | KeyCodec.Char ch => ch =? 113
            | _ => false
            end
      then (input_buffer, Disconnect)
      else
        let bs := KeyCodec.guest_key_event_to_bytes key_event in
        match bs with
        | [] => (input_buffer, NoAction)
        | _ :: _ =>
            match KeyCodec.code key_event with
            | KeyCodec.Enter =>
                match input_buffer with
                | [] => (input_buffer, NoAction)
                | _ :: _ => ([], SendPrompt (input_buffer ++ [10]))
                end
            | _ =>
                if Utf8.utf8_valid bs then (input_buffer ++ bs, NoAction)
                else (input_buffer, NoAction)
            end
        end
  | Paste text => (input_buffer ++ utf8_encode_str text, NoAction)
  | OtherEvent => (input_buffer, NoAction)
  end.

(** The events of one polling round (and later rounds): the prompts
    sent, the buffer left and whether the loop returned on Ctrl+Q. *)
Fixpoint input_loop (input_buffer : bytes) (events : list Event)
  : list bytes * bytes * bool :=
  match events with
  | [] => ([], input_buffer, false)
  | ev :: rest =>
      let '(buf', act) := handle_input_event input_buffer ev in
      match act with
      | Disconnect => ([], buf', true)
      | SendPrompt text =>
          let '(prompts, buf'', quit) := input_loop buf' rest in
          (text :: prompts, buf'', quit)
      | NoAction => input_loop buf' rest
      end
  end.

End Guest.

(** * src/src/auth.rs: [poll_for_pairing], with the MEK envelope code of
    packages/cli/src/crypto.rs *)
Module Pairing.

(** [e.to_string()] of a [CliError]. *)
Definition cli_error_to_string (e : CliError) : string :=
  match e with
  | CryptoError m => "Crypto error: " ++ m
  | WebSocketError m => "WebSocket error: " ++ m
  end.

(** The variants of [auth::AuthError] the pairing poll produces;
    [HttpError] wraps a [reqwest::Error]. *)
Inductive AuthError :=
| HttpError
| ServerError (message : string)
| Cancelled
| Skipped
| PairingExpired
| CryptoError (message : string).

(** What one GET /dashboard/auth/pair/status gives back: a 2xx whose
    body parses, a non-2xx with its text, or a [reqwest] error (send or
    JSON body). *)
Inductive StatusReply :=
| StatusData (status : string) (dash_public_key : option string)
    (encrypted_mek : option CryptoMek.EncryptedMEK)
| StatusFailure (error_text : string)
| StatusHttpError.

(** One turn of the loop: the key read, if any, the time elapsed since
    [start_time] (ms), and the reply if this turn polls. *)
Record PairingTick := {
  ptick_key : option KeyCodec.KeyEvent;
  ptick_elapsed_ms : Z;
  ptick_reply : StatusReply
}.

(** [Duration::from_secs(2)] *)
Definition POLL_INTERVAL_MS : Z := 2000.

Record PairingState := {
  ticks_until_poll : Z;
  private_key_opt : option bytes
}.

Inductive PairingResult :=
| PairOk (mek : Crypto.SecretKey)
| PairErr (e : AuthError)
| PairPanicked (reason : string).

Inductive PairingStep :=
| PContinue (st : PairingState)
| PStop (r : PairingResult).

Section WithPrims.
Variable P : Crypto.CryptoPrims.
Variable K : CryptoMek.KdfPrims.

Definition poll_step (expires_in : Z) (st : PairingState) (tick : PairingTick)
  : PairingStep :=
  let key_result :=
    match ptick_key tick with
    | Some ke =>
        match KeyCodec.code ke with
        | KeyCodec.Char c =>
            if (c =? 99) && KeyCodec.contains (KeyCodec.modifiers ke) KeyCodec.CONTROL
            then Some Cancelled else None
        | KeyCodec.Esc => Some Skipped
        | _ => None
        end
    | None => None
    end in
  match key_result with
  | Some e => PStop (PairErr e)
  | None =>
  if expires_in * 1000 <=? ptick_elapsed_ms tick then PStop (PairErr PairingExpired)
  else
  let ticks_per_poll := POLL_INTERVAL_MS / DeviceFlow.ANIMATION_INTERVAL_MS in
  let ticks := ticks_until_poll st + 1 in
  if ticks <? ticks_per_poll then
    PContinue {| ticks_until_poll := ticks; private_key_opt := private_key_opt st |}
  else
  match ptick_reply tick with
  | StatusHttpError => PStop (PairErr HttpError)
  | StatusFailure error_text => PStop (PairErr (ServerError error_text))
  | StatusData status dash_public_key encrypted_mek =>
      if String.eqb status "pending" then
        PContinue {| ticks_until_poll := 0; private_key_opt := private_key_opt st |}
      else if String.eqb status "expired" then PStop (PairErr PairingExpired)
      else if String.eqb status "completed" then
        match dash_public_key with
        | None => PStop (PairErr (ServerError "Missing Dashboard public key"))
        | Some dash_public_key_b64 =>
        match encrypted_mek with
        | None => PStop (PairErr (ServerError "Missing encrypted MEK"))
        | Some em =>
        match Crypto.base64_decode P dash_public_key_b64 with
        | Failed e => PStop (PairErr (CryptoError (cli_error_to_string e)))
        | Panicked r => PStop (PairPanicked r)
        | Done dash_pk =>
        match private_key_opt st with
        | None => PStop (PairErr (CryptoError "Private key already consumed"))
        | Some private_key =>
        match CryptoMek.decrypt_mek_from_pairing P K private_key dash_pk em with
        | Done mek => PStop (PairOk mek)
        | Failed e => PStop (PairErr (CryptoError (cli_error_to_string e)))
        | Panicked r => PStop (PairPanicked r)
        end end end end end
      else PStop (PairErr (ServerError ("Unknown status: " ++ status)))
  end
  end.

(** The loop over the turns it is given; [None] while still polling. *)
Fixpoint pairing_loop (expires_in : Z) (st : PairingState) (ticks : list PairingTick)
  : option PairingResult :=
  match ticks with
  | [] => None
  | t :: rest =>
      match poll_step expires_in st t with
      | PStop r => Some r
      | PContinue st' => pairing_loop expires_in st' rest
      end
  end.

Definition poll_for_pairing (private_key : bytes) (expires_in : Z)
    (ticks : list PairingTick) : option PairingResult :=
  pairing_loop expires_in {| ticks_until_poll := 0; private_key_opt := Some private_key |}
    ticks.

End WithPrims.
End Pairing.

(** * A concrete instance of the crypto primitives

    A stand-in cipher (the tag is sixteen zero bytes and is checked on
    decryption) and a self-delimiting text encoding stand in for AES-GCM
    and base64, so that the envelope functions can be run on examples. *)
Module CryptoTestInstance.

Definition toy_seal (key nonce pt : bytes) : bytes := pt ++ repeat 0 16.

Definition toy_open (key nonce ct : bytes) : option bytes :=
  if (16 <=? length ct)%nat
  then if forallb (Z.eqb 0) (skipn (length ct - 16) ct)
       then Some (firstn (length ct - 16) ct) else None
  else None.

Definition toy_hkdf (ikm info : bytes) (len : nat) : bytes :=
  firstn len (ikm ++ info ++ repeat 0 len).

(** Each number as a sign, its magnitude in unary, and a terminator. *)
Definition enc_z (z : Z) : string :=
  String (if z <? 0 then "-"%char else "+"%char)
    (string_of_list_ascii (repeat "|"%char (Z.abs_nat z)) ++ ";")%string.

Fixpoint toy_encode (data : bytes) : string :=
  match data with
  | [] => EmptyString
  | z :: rest => (enc_z z ++ toy_encode rest)%string
  end.

Fixpoint count_bars (s : string) (n : nat) : option (nat * string) :=
  match s with
  | EmptyString => None
  | String c rest =>
      if Ascii.eqb c "|" then count_bars rest (S n)
      else if Ascii.eqb c ";" then Some (n, rest) else None
  end.

Fixpoint decode_fuel (fuel : nat) (s : string) : option bytes :=
  match s with
  | EmptyString => Some []
  | String sign rest =>
      match fuel with
      | O => None
      | S fuel' =>
          match count_bars rest O with
          | None => None
          | Some (n, rest') =>
              match decode_fuel fuel' rest' with
              | None => None
              | Some zs =>
                  Some ((if Ascii.eqb sign "-" then - Z.of_nat n else Z.of_nat n) :: zs)
              end
          end
      end
  end.

Definition toy_decode (s : string) : bytes + string :=
  match decode_fuel (String.length s) s with
  | Some data => inl data
  | None => inr "invalid encoding"%string
  end.

Definition toy_prims : Crypto.CryptoPrims := {|
  Crypto.hkdf_sha256_expand := toy_hkdf;
  Crypto.aes256gcm_encrypt := toy_seal;
  Crypto.aes256gcm_decrypt := toy_open;
  Crypto.b64_encode := toy_encode;
  Crypto.b64_decode := toy_decode
|}.

End CryptoTestInstance.

(** A stand-in key-derivation instance: the "hash" is the password bytes
    followed by the salt, cut to length; every SEC1 point of 65 bytes is
    accepted. *)
Module CryptoMekTestInstance.

Definition toy_kdf : CryptoMek.KdfPrims := {|
  CryptoMek.argon2id_hash := fun pw s n => inl (firstn n (pw ++ s ++ repeat 0 n));
  CryptoMek.sec1_encoded_point := fun b =>
    if (length b =? 65)%nat then inl b else inr "invalid SEC1 point"%string;
  CryptoMek.p256_public_key := fun b => Some b;
  CryptoMek.p256_diffie_hellman := fun sk pk => firstn 32 (sk ++ pk)
|}.

End CryptoMekTestInstance.

(** * Properties *)

Module CryptoTestFacts.
Import CryptoTestInstance.

Lemma toy_seal_length (key nonce pt : bytes) :
  length (toy_seal key nonce pt) = (length pt + 16)%nat.
Proof. unfold toy_seal. rewrite length_app, repeat_length. reflexivity. Qed.

Lemma toy_open_seal (key nonce pt : bytes) :
  toy_open key nonce (toy_seal key nonce pt) = Some pt.
Proof.
  unfold toy_open. rewrite toy_seal_length.
  replace (16 <=? length pt + 16)%nat with true by (symmetry; apply Nat.leb_le; lia).
  replace (length pt + 16 - 16)%nat with (length pt) by lia.
  unfold toy_seal. rewrite skipn_app, skipn_all, Nat.sub_diag. cbn.
  rewrite firstn_app, firstn_all, Nat.sub_diag, app_nil_r. reflexivity.
Qed.

Lemma count_bars_repeat (k n : nat) (rest : string) :
  count_bars (string_of_list_ascii (repeat "|"%char k) ++ String ";" rest) n
  = Some ((k + n)%nat, rest).
Proof.
  revert n. induction k as [|k IH]; intros n; cbn; [reflexivity|].
  rewrite IH. f_equal. f_equal. lia.
Qed.

Lemma str_append_assoc (a b c : string) :
  (a ++ (b ++ c) = (a ++ b) ++ c)%string.
Proof. induction a as [|x a IH]; cbn; [reflexivity|]. rewrite IH. reflexivity. Qed.

Lemma str_length_append (a b : string) :
  String.length (a ++ b) = (String.length a + String.length b)%nat.
Proof. induction a as [|x a IH]; cbn; [reflexivity|]. rewrite IH. reflexivity. Qed.

Lemma toy_encode_cons (z : Z) (data : bytes) :
  toy_encode (z :: data)
  = String (if z <? 0 then "-"%char else "+"%char)
      (string_of_list_ascii (repeat "|"%char (Z.abs_nat z)) ++
       String ";" (toy_encode data)).
Proof.
  cbn [toy_encode]. unfold enc_z. cbn [String.append].
  rewrite <- str_append_assoc. reflexivity.
Qed.

Lemma decode_fuel_encode (data : bytes) (fuel : nat) :
  (length data <= fuel)%nat -> decode_fuel fuel (toy_encode data) = Some data.
Proof.
  revert fuel. induction data as [|z data IH]; intros fuel Hf.
  - destruct fuel; reflexivity.
  - destruct fuel as [|fuel]; [cbn in Hf; lia|].
    rewrite toy_encode_cons. cbn [decode_fuel].
    rewrite count_bars_repeat, Nat.add_0_r, IH by (cbn in Hf; lia).
    f_equal. f_equal.
    destruct (z <? 0) eqn:Hz; cbn.
    + apply Z.ltb_lt in Hz. lia.
    + apply Z.ltb_ge in Hz. lia.
Qed.

Lemma toy_encode_length (data : bytes) :
  (length data <= String.length (toy_encode data))%nat.
Proof.
  induction data as [|z data IH]; [cbn; lia|].
  rewrite toy_encode_cons. cbn [String.length]. rewrite str_length_append.
  cbn [String.length length]. lia.
Qed.

Lemma toy_decode_encode (data : bytes) : toy_decode (toy_encode data) = inl data.
Proof.
  unfold toy_decode. rewrite decode_fuel_encode by apply toy_encode_length.
  reflexivity.
Qed.

End CryptoTestFacts.

Module CryptoFacts.
Import Crypto.

Lemma length_skipn_tag (c : bytes) (pt : bytes) :
  length c = (length pt + TAG_SIZE)%nat ->
  length (skipn (length pt) c) = TAG_SIZE.
Proof. intros H. rewrite length_skipn, H. unfold TAG_SIZE. lia. Qed.

(** C1: with the session key derived from any MEK and session id,
    decrypting the envelope [encrypt_content] produced for a plaintext
    returns that plaintext, whatever 12-byte nonce the encryptor drew.
    The AEAD is assumed correct and length-preserving up to its 16-byte
    tag, and the base64 codec is assumed to round-trip. *)
Theorem content_roundtrip (P : CryptoPrims)
    (Haead : forall key n pt, length n = NONCE_SIZE ->
       aes256gcm_decrypt P key n (aes256gcm_encrypt P key n pt) = Some pt)
    (Hlen : forall key n pt,
       length (aes256gcm_encrypt P key n pt) = (length pt + TAG_SIZE)%nat)
    (Hb64 : forall data, b64_decode P (b64_encode P data) = inl data)
    (mek : SecretKey) (session_id : string) (plaintext nonce_bytes : bytes)
    (Hnonce : length nonce_bytes = NONCE_SIZE) :
  exists env,
    encrypt_content P (derive_session_key P mek session_id) nonce_bytes plaintext
      = Done env /\
    decrypt_content P (derive_session_key P mek session_id) env = Done plaintext.
Proof.
  set (sk := derive_session_key P mek session_id).
  set (c := aes256gcm_encrypt P sk nonce_bytes plaintext).
  assert (Hc : length c = (length plaintext + TAG_SIZE)%nat) by apply Hlen.
  unfold encrypt_content, aes_gcm_encrypt. fold c.
  replace (length c <? TAG_SIZE)%nat with false
    by (symmetry; apply Nat.ltb_ge; rewrite Hc; lia).
  replace (length c - TAG_SIZE)%nat with (length plaintext) by (rewrite Hc; lia).
  eexists; split; [reflexivity|].
  unfold decrypt_content, base64_decode, base64_encode; cbn [v nonce ciphertext tag].
  rewrite !Hb64.
  rewrite Hnonce, (length_skipn_tag c plaintext Hc); cbn.
  unfold copy_from_slice. rewrite Hnonce, (length_skipn_tag c plaintext Hc); cbn.
  unfold aes_gcm_decrypt. rewrite firstn_skipn.
  unfold c. rewrite Haead by exact Hnonce. reflexivity.
Qed.

(** The round trip on the test instance: MEK 32 x 0xAB, a ULID session
    id and the plaintext "hello". *)
Lemma content_roundtrip_witness :
  length (seq 0 12 : list nat) = NONCE_SIZE /\
  exists env,
    encrypt_content CryptoTestInstance.toy_prims
      (derive_session_key CryptoTestInstance.toy_prims (repeat 171 32)
         "01HQXK7V8G3N5M2R4P6T1W9Y0Z")
      (map Z.of_nat (seq 0 12)) (bytes_of_string "hello") = Done env /\
    decrypt_content CryptoTestInstance.toy_prims
      (derive_session_key CryptoTestInstance.toy_prims (repeat 171 32)
         "01HQXK7V8G3N5M2R4P6T1W9Y0Z") env = Done (bytes_of_string "hello").
Proof.
  split; [reflexivity|].
  apply (content_roundtrip CryptoTestInstance.toy_prims
           (fun key n pt _ => CryptoTestFacts.toy_open_seal key n pt)
           CryptoTestFacts.toy_seal_length
           CryptoTestFacts.toy_decode_encode).
  reflexivity.
Defined.

(** C5: [decrypt_content] never panics; it returns a crypto error when
    the version is not 1, when any of nonce, ciphertext or tag is not
    valid base64, when the nonce is not 12 bytes or the tag not 16 bytes;
    and when the AEAD rejects the data it returns the one fixed error
    "Decryption failed (wrong key or corrupted data)". *)
Theorem decrypt_content_rejects (P : CryptoPrims) (sk : SecretKey)
    (env : EncryptedContent) :
  (forall r, decrypt_content P sk env <> Panicked r) /\
  (v env <> 1 -> exists m, decrypt_content P sk env = Failed (CryptoError m)) /\
  (forall e, b64_decode P (nonce env) = inr e \/
             b64_decode P (ciphertext env) = inr e \/
             b64_decode P (tag env) = inr e ->
   exists m, decrypt_content P sk env = Failed (CryptoError m)) /\
  (forall nb, b64_decode P (nonce env) = inl nb -> length nb <> NONCE_SIZE ->
   exists m, decrypt_content P sk env = Failed (CryptoError m)) /\
  (forall tb, b64_decode P (tag env) = inl tb -> length tb <> TAG_SIZE ->
   exists m, decrypt_content P sk env = Failed (CryptoError m)) /\
  (forall nb cb tb, v env = 1 ->
   b64_decode P (nonce env) = inl nb -> b64_decode P (ciphertext env) = inl cb ->
   b64_decode P (tag env) = inl tb ->
   length nb = NONCE_SIZE -> length tb = TAG_SIZE ->
   aes256gcm_decrypt P sk nb (cb ++ tb) = None ->
   decrypt_content P sk env =
     Failed (CryptoError "Decryption failed (wrong key or corrupted data)")).
Proof.
  unfold decrypt_content, base64_decode, copy_from_slice, aes_gcm_decrypt.
  destruct (v env =? 1) eqn:Hv; cbn [negb].
  2:{ apply Z.eqb_neq in Hv.
      repeat split; intros; first [discriminate | eexists; reflexivity | congruence]. }
  apply Z.eqb_eq in Hv.
  destruct (b64_decode P (nonce env)) as [nb|en] eqn:Hn;
  destruct (b64_decode P (ciphertext env)) as [cb|ec] eqn:Hc;
  destruct (b64_decode P (tag env)) as [tb|et] eqn:Ht;
  try (repeat split; intros;
       repeat match goal with
       | H : _ \/ _ |- _ => destruct H
       | H : inl _ = inl _ |- _ => injection H as <-
       | H : inr _ = inl _ |- _ => discriminate H
       | H : inl _ = inr _ |- _ => discriminate H
       end;
       first [discriminate | eexists; reflexivity | lia]; fail).
  destruct (length nb =? NONCE_SIZE)%nat eqn:Hln; cbn [negb].
  2:{ apply Nat.eqb_neq in Hln.
      repeat split; intros;
      repeat match goal with
      | H : _ \/ _ |- _ => destruct H
      | H : inl _ = inl _ |- _ => injection H as <-
      | H : inr _ = inl _ |- _ => discriminate H
      | H : inl _ = inr _ |- _ => discriminate H
      end;
      first [discriminate | eexists; reflexivity | lia]. }
  destruct (length tb =? TAG_SIZE)%nat eqn:Hlt; cbn [negb].
  2:{ apply Nat.eqb_neq in Hlt.
      repeat split; intros;
      repeat match goal with
      | H : _ \/ _ |- _ => destruct H
      | H : inl _ = inl _ |- _ => injection H as <-
      | H : inr _ = inl _ |- _ => discriminate H
      | H : inl _ = inr _ |- _ => discriminate H
      end;
      first [discriminate | eexists; reflexivity | lia]. }
  apply Nat.eqb_eq in Hln. apply Nat.eqb_eq in Hlt.
  destruct (aes256gcm_decrypt P sk nb (cb ++ tb)) as [pt|] eqn:Hd.
  - repeat split; intros;
    repeat match goal with
    | H : _ \/ _ |- _ => destruct H
    | H : inl _ = inl _ |- _ => injection H as <-
    | H : inr _ = inl _ |- _ => discriminate H
    | H : inl _ = inr _ |- _ => discriminate H
    end;
    first [discriminate | lia | congruence].
  - repeat split; intros;
    repeat match goal with
    | H : _ \/ _ |- _ => destruct H
    | H : inl _ = inl _ |- _ => injection H as <-
    | H : inr _ = inl _ |- _ => discriminate H
    | H : inl _ = inr _ |- _ => discriminate H
    end;
    first [discriminate | eexists; reflexivity | lia | reflexivity].
Qed.

End CryptoFacts.

Module QueueFacts.
Import Queue.

Section WithMessage.
Context {M : Type}.

Definition fresh (now : Z) (m : @QueuedMessage M) : bool :=
  duration_since now (timestamp m) <? MAX_QUEUE_AGE.

Lemma trim_front_skipn (fuel : nat) (q : list (@QueuedMessage M)) :
  (length q - MAX_QUEUE_SIZE <= fuel)%nat ->
  trim_front fuel q = skipn (length q - MAX_QUEUE_SIZE) q.
Proof.
  revert q. induction fuel as [|fuel IH]; intros q Hf; cbn [trim_front].
  - replace (length q - MAX_QUEUE_SIZE)%nat with O by lia. reflexivity.
  - destruct (MAX_QUEUE_SIZE <? length q)%nat eqn:Hlt.
    + apply Nat.ltb_lt in Hlt. destruct q as [|x t]; [cbn in Hlt; lia|].
      cbn [length] in *. rewrite IH by lia.
      replace (S (length t) - MAX_QUEUE_SIZE)%nat
        with (S (length t - MAX_QUEUE_SIZE)) by (unfold MAX_QUEUE_SIZE in *; lia).
      reflexivity.
    + apply Nat.ltb_ge in Hlt.
      replace (length q - MAX_QUEUE_SIZE)%nat with O by lia. reflexivity.
Qed.

Lemma queue_message_lastn (now : Z) (msg : M) (q : list QueuedMessage) :
  queue_message now msg q
  = lastn MAX_QUEUE_SIZE
      (filter (fresh now) q ++ [{| message := msg; timestamp := now |}]).
Proof.
  unfold queue_message, lastn. apply trim_front_skipn. apply Nat.le_sub_l.
Qed.

Lemma lastn_length {A} (n : nat) (l : list A) : (length (lastn n l) <= n)%nat.
Proof. unfold lastn. rewrite length_skipn. lia. Qed.

Lemma drain_loop_prefix (now : Z) (sp : bool) (ok : M -> bool)
    (q : list QueuedMessage) :
  let '(sent, rest, _) := drain_loop now sp ok q in
  exists k, (k <= length q)%nat /\
    sent = (if sp then filter (fresh now) (firstn k q) else []) /\
    rest = skipn k q.
Proof.
  induction q as [|e q IH]; cbn [drain_loop].
  - exists O. destruct sp; repeat split; reflexivity.
  - destruct (drain_loop now sp ok q) as [[sent rest] res] eqn:Hd.
    destruct IH as [k [Hk [Hs Hr]]].
    destruct (MAX_QUEUE_AGE <=? duration_since now (timestamp e)) eqn:Ha.
    + exists (S k). cbn [length firstn filter skipn]. split; [lia|].
      unfold fresh at 1. rewrite Z.ltb_antisym, Ha. cbn [negb]. auto.
    + destruct sp.
      * destruct (ok (message e)).
        -- exists (S k). cbn [length firstn filter skipn]. split; [lia|].
           unfold fresh at 1. rewrite Z.ltb_antisym, Ha. cbn [negb].
           rewrite Hs, Hr. auto.
        -- exists O. cbn. split; [lia|]. auto.
      * exists (S k). cbn [length skipn]. split; [lia|]. auto.
Qed.

Lemma drain_loop_all_sent (now : Z) (ok : M -> bool) (q : list QueuedMessage) :
  (forall e, In e q -> ok (message e) = true) ->
  drain_loop now true ok q = (filter (fresh now) q, [], true).
Proof.
  induction q as [|e q IH]; intros Hok; cbn [drain_loop]; [reflexivity|].
  rewrite IH by (intros; apply Hok; right; assumption).
  cbn [filter]. unfold fresh. rewrite Z.ltb_antisym.
  destruct (MAX_QUEUE_AGE <=? duration_since now (timestamp e)); cbn [negb];
  [reflexivity|].
  rewrite Hok by (left; reflexivity). reflexivity.
Qed.

Lemma run_queue_invariant (ops : list (@queue_op M)) (q : list QueuedMessage) :
  (length q <= MAX_QUEUE_SIZE)%nat ->
  let '(deliveries, states, _) := run_queue ops q in
  Forall (fun s => (length s <= MAX_QUEUE_SIZE)%nat) states /\
  Forall (fun d => duration_since (snd d) (timestamp (fst d)) < MAX_QUEUE_AGE)
    deliveries.
Proof.
  revert q. induction ops as [|op ops IH]; intros q Hq; cbn [run_queue].
  - split; constructor.
  - destruct op as [now msg | now sp ok].
    + assert (Hq' : (length (queue_message now msg q) <= MAX_QUEUE_SIZE)%nat)
        by (rewrite queue_message_lastn; apply lastn_length).
      specialize (IH _ Hq').
      destruct (run_queue ops (queue_message now msg q)) as [[dl states] final].
      destruct IH as [H1 H2]. split; [constructor|]; assumption.
    + pose proof (drain_loop_prefix now sp ok q) as Hp.
      unfold drain_message_queue.
      destruct (drain_loop now sp ok q) as [[sent rest] res].
      destruct Hp as [k [Hk [Hs Hr]]].
      assert (Hrest : (length rest <= MAX_QUEUE_SIZE)%nat)
        by (rewrite Hr, length_skipn; lia).
      specialize (IH _ Hrest).
      destruct (run_queue ops rest) as [[dl states] final].
      destruct IH as [H1 H2]. split; [constructor; assumption|].
      apply Forall_app. split; [|assumption].
      apply Forall_map, Forall_forall. intros e He. cbn [fst snd].
      rewrite Hs in He. destruct sp; [|destruct He].
      apply filter_In in He as [_ He]. unfold fresh in He. lia.
Qed.


(** C2: over any run of enqueues and drains from the empty queue, every
    queue state holds at most 100 entries and every delivered entry is
    younger than five minutes at its drain.  An enqueue first discards
    the entries five minutes old or older and then, on overflow, drops
    the oldest ones (it keeps the newest 100).  A drain (with the sink
    [do_connect] just installed) delivers, in queue order, the entries
    younger than five minutes from a prefix of the queue and keeps the
    rest; when every send succeeds it delivers all of them. *)
Theorem queue_bounded_fresh_fifo :
  (forall ops : list (@queue_op M),
     let '(deliveries, states, _) := run_queue ops [] in
     Forall (fun s => (length s <= MAX_QUEUE_SIZE)%nat) states /\
     Forall (fun d => duration_since (snd d) (timestamp (fst d)) < MAX_QUEUE_AGE)
       deliveries) /\
  (forall now msg q,
     queue_message now msg q
     = lastn MAX_QUEUE_SIZE
         (filter (fresh now) q ++ [{| message := msg; timestamp := now |}])) /\
  (forall now ok q,
     let '(sent, rest, _) := drain_message_queue now true ok q in
     exists k, sent = filter (fresh now) (firstn k q) /\ rest = skipn k q) /\
  (forall now ok q,
     (forall e, In e q -> ok (message e) = true) ->
     drain_message_queue now true ok q = (filter (fresh now) q, [], true)).
Proof.
  split; [|split; [|split]].
  - intros ops. apply run_queue_invariant. cbn. lia.
  - apply queue_message_lastn.
  - intros now ok q. pose proof (drain_loop_prefix now true ok q) as H.
    unfold drain_message_queue.
    destruct (drain_loop now true ok q) as [[sent rest] res].
    destruct H as [k [_ [Hs Hr]]]. exists k. auto.
  - intros now ok q Hok. apply drain_loop_all_sent. exact Hok.
Qed.

End WithMessage.
End QueueFacts.

Module BackoffFacts.
Import Backoff.

Definition base_of (n : Z) : Z := BASE_BACKOFF_MS * 2 ^ (n - 1).

Lemma backoff_delay_range (n jitter : Z) :
  1 <= n -> jitter_ok jitter ->
  Z.min (base_of n) MAX_BACKOFF_MS <= backoff_delay n jitter
    <= Z.min (base_of n + 999) MAX_BACKOFF_MS.
Proof.
  intros Hn Hj. unfold backoff_delay, base_of, jitter_ok in *.
  assert (0 < 2 ^ (n - 1)) by (apply Z.pow_pos_nonneg; lia).
  set (b := BASE_BACKOFF_MS * 2 ^ (n - 1)). unfold MAX_BACKOFF_MS. lia.
Qed.

Lemma backoff_delay_small (n jitter : Z) :
  1 <= n <= 6 -> jitter_ok jitter -> claimed_delay_range n (backoff_delay n jitter).
Proof.
  intros Hn Hj. unfold jitter_ok in Hj.
  assert (0 < 2 ^ (n - 1)) by (apply Z.pow_pos_nonneg; lia).
  assert (2 ^ (n - 1) <= 2 ^ 5) by (apply Z.pow_le_mono_r; lia).
  change (2 ^ 5) with 32 in *.
  unfold claimed_delay_range, backoff_delay, BASE_BACKOFF_MS, MAX_BACKOFF_MS.
  set (p := 2 ^ (n - 1)) in *. lia.
Qed.

Lemma reconnect_run_bounded (a : Z) (tries : list (Z * bool)) :
  0 <= a <= MAX_RECONNECT_ATTEMPTS ->
  Forall (fun t => jitter_ok (fst t)) tries ->
  let '(slept, _) := reconnect_run a tries in
  (Z.of_nat (length slept) <= MAX_RECONNECT_ATTEMPTS - a) /\
  Forall (fun p => a < fst p <= MAX_RECONNECT_ATTEMPTS /\
     Z.min (base_of (fst p)) MAX_BACKOFF_MS <= snd p
       <= Z.min (base_of (fst p) + 999) MAX_BACKOFF_MS) slept.
Proof.
  unfold MAX_RECONNECT_ATTEMPTS.
  revert a. induction tries as [|[jitter connects] tries IH]; intros a Ha Hj;
  cbn [reconnect_run].
  - cbn [length Z.of_nat fst snd]. split; [lia | constructor].
  - inversion Hj as [| x l Hj1 Hjs]; subst. cbn [fst] in Hj1.
    unfold reconnect, MAX_RECONNECT_ATTEMPTS.
    destruct (10 <=? a) eqn:Hm.
    + cbn [length Z.of_nat fst snd]. split; [lia | constructor].
    + apply Z.leb_gt in Hm.
      pose proof (backoff_delay_range (a + 1) jitter ltac:(lia) Hj1) as Hr.
      destruct connects.
      * cbn [length Z.of_nat fst snd]. split; [lia|]. constructor; [cbn; split; [lia | exact Hr] | constructor].
      * specialize (IH (a + 1) ltac:(lia) Hjs).
        destruct (reconnect_run (a + 1) tries) as [slept r].
        destruct IH as [Hlen Hall]. cbn [length]. split; [lia|].
        constructor; [cbn; split; [lia | exact Hr]|].
        eapply Forall_impl; [|exact Hall]. cbn [length Z.of_nat fst snd]. intros p [Hp Hq]. split; [lia | exact Hq].
Qed.

(** C3 (as stated): attempt 7 sleeps the 30000 ms cap, which is not in
    [500 * 2^6, 500 * 2^6 + 1000] = [32000, 33000]. *)
Lemma reconnect_delay_claim_fails :
  reconnect 6 0 = SleepThenConnect 7 30000 /\ ~ claimed_delay_range 7 30000.
Proof.
  split; [reflexivity|]. unfold claimed_delay_range, BASE_BACKOFF_MS. cbn. lia.
Qed.

(** C3 (amended): each call of [reconnect] that does not give up bumps
    the attempt counter to n (1 <= n <= 10) and sleeps
    [min(500 * 2^(n-1) + jitter, 30000)] ms, which lies in
    [min(500 * 2^(n-1), 30000), min(500 * 2^(n-1) + 999, 30000)]; for
    n <= 6 this is inside the claimed interval.  A client whose attempts
    keep failing makes at most 10 of them before [reconnect] gives up. *)
Theorem reconnect_backoff_bounds (tries : list (Z * bool))
    (Hj : Forall (fun t => jitter_ok (fst t)) tries) :
  (forall attempt jitter, 0 <= attempt -> jitter_ok jitter ->
     match reconnect attempt jitter with
     | GiveUp => MAX_RECONNECT_ATTEMPTS <= attempt
     | SleepThenConnect n d =>
         n = attempt + 1 /\ 1 <= n /\
         d = Z.min (BASE_BACKOFF_MS * 2 ^ (n - 1) + jitter) MAX_BACKOFF_MS /\
         Z.min (BASE_BACKOFF_MS * 2 ^ (n - 1)) MAX_BACKOFF_MS <= d
           <= Z.min (BASE_BACKOFF_MS * 2 ^ (n - 1) + 999) MAX_BACKOFF_MS /\
         (n <= 6 -> claimed_delay_range n d)
     end) /\
  (let '(slept, _) := reconnect_run 0 tries in
   (length slept <= 10)%nat /\
   Forall (fun p => 1 <= fst p <= MAX_RECONNECT_ATTEMPTS /\
     Z.min (BASE_BACKOFF_MS * 2 ^ (fst p - 1)) MAX_BACKOFF_MS <= snd p
       <= Z.min (BASE_BACKOFF_MS * 2 ^ (fst p - 1) + 999) MAX_BACKOFF_MS) slept).
Proof.
  split.
  - intros attempt jitter Ha Hjit. unfold reconnect.
    destruct (MAX_RECONNECT_ATTEMPTS <=? attempt) eqn:Hm.
    + apply Z.leb_le in Hm. exact Hm.
    + pose proof (backoff_delay_range (attempt + 1) jitter ltac:(lia) Hjit) as Hr.
      unfold base_of in Hr.
      split; [reflexivity|]. split; [lia|]. split; [reflexivity|].
      split; [exact Hr|].
      intros H6. apply backoff_delay_small; [lia | exact Hjit].
  - pose proof (reconnect_run_bounded 0 tries ltac:(unfold MAX_RECONNECT_ATTEMPTS; lia) Hj)
      as H.
    destruct (reconnect_run 0 tries) as [slept r].
    destruct H as [Hl Hall]. split; [unfold MAX_RECONNECT_ATTEMPTS in Hl; lia|].
    eapply Forall_impl; [|exact Hall]. cbn. unfold base_of. intros p [Hp Hq].
    split; [lia | exact Hq].
Qed.

(** Eleven failing attempts with the largest jitter: ten sleeps, then
    [reconnect] gives up. *)
Example reconnect_run_eleven_failures :
  reconnect_run 0 (repeat (999, false) 11)
  = ([(1, 1499); (2, 1999); (3, 2999); (4, 4999); (5, 8999); (6, 16999);
      (7, 30000); (8, 30000); (9, 30000); (10, 30000)], MaxAttemptsReached).
Proof. reflexivity. Qed.

Lemma reconnect_backoff_bounds_witness :
  Forall (fun t => jitter_ok (fst t)) (repeat (999, false) 11) /\
  (let '(slept, _) := reconnect_run 0 (repeat (999, false) 11) in
   (length slept <= 10)%nat /\
   Forall (fun p => 1 <= fst p <= MAX_RECONNECT_ATTEMPTS /\
     Z.min (BASE_BACKOFF_MS * 2 ^ (fst p - 1)) MAX_BACKOFF_MS <= snd p
       <= Z.min (BASE_BACKOFF_MS * 2 ^ (fst p - 1) + 999) MAX_BACKOFF_MS) slept).
Proof.
  assert (Hj : Forall (fun t => jitter_ok (fst t)) (repeat (999, false) 11))
    by (repeat constructor; unfold jitter_ok; cbn; lia).
  split; [exact Hj|].
  exact (proj2 (reconnect_backoff_bounds _ Hj)).
Defined.

End BackoffFacts.

Module KeyCodecFacts.
Import KeyCodec.

Lemma ctrl_byte_low_bits (c : Z) : Z.land (char_as_u8 c) 31 = Z.land c 31.
Proof.
  unfold char_as_u8. change 31 with (Z.ones 5).
  rewrite !Z.land_ones by lia.
  apply Z.mod_mod_divide. exists 8. reflexivity.
Qed.

Lemma fkey_codec (n : Z) :
  (if n =? 1 then [27; 79; 80]
   else if n =? 2 then [27; 79; 81]
   else if n =? 3 then [27; 79; 82]
   else if n =? 4 then [27; 79; 83]
   else if n =? 5 then [27; 91; 49; 53; 126]
   else if n =? 6 then [27; 91; 49; 55; 126]
   else if n =? 7 then [27; 91; 49; 56; 126]
   else if n =? 8 then [27; 91; 49; 57; 126]
   else if n =? 9 then [27; 91; 50; 48; 126]
   else if n =? 10 then [27; 91; 50; 49; 126]
   else if n =? 11 then [27; 91; 50; 51; 126]
   else if n =? 12 then [27; 91; 50; 52; 126]
   else [])
  = (if (1 <=? n) && (n <=? 4) then
       ss3 (nth (Z.to_nat (n - 1)) ["P"; "Q"; "R"; "S"]%char "P"%char)
     else if (5 <=? n) && (n <=? 12) then
       csi_tilde (nth (Z.to_nat (n - 5)) [15; 17; 18; 19; 20; 21; 23; 24] 0)
     else []).
Proof.
  destruct (Z.eqb_spec n 1); [subst; reflexivity|].
  destruct (Z.eqb_spec n 2); [subst; reflexivity|].
  destruct (Z.eqb_spec n 3); [subst; reflexivity|].
  destruct (Z.eqb_spec n 4); [subst; reflexivity|].
  destruct (Z.eqb_spec n 5); [subst; reflexivity|].
  destruct (Z.eqb_spec n 6); [subst; reflexivity|].
  destruct (Z.eqb_spec n 7); [subst; reflexivity|].
  destruct (Z.eqb_spec n 8); [subst; reflexivity|].
  destruct (Z.eqb_spec n 9); [subst; reflexivity|].
  destruct (Z.eqb_spec n 10); [subst; reflexivity|].
  destruct (Z.eqb_spec n 11); [subst; reflexivity|].
  destruct (Z.eqb_spec n 12); [subst; reflexivity|].
  destruct (Z.leb_spec 1 n), (Z.leb_spec n 4), (Z.leb_spec 5 n), (Z.leb_spec n 12);
  cbn [andb]; first [reflexivity | lia].
Qed.

(** C4: both copies of [key_event_to_bytes] (host and guest) are total
    and agree with the reference mapping on every key event: Ctrl+char
    gives [c & 0x1f], other chars their UTF-8 bytes, Enter CR, Backspace
    DEL, Tab HT, Esc ESC, arrows [ESC [ A/B/C/D], Home/End [ESC [ H/F],
    PageUp/PageDown [ESC [ 5~/6~], Delete [ESC [ 3~], Insert [ESC [ 2~],
    F1-F4 [ESC O P/Q/R/S], F5-F12 [ESC [ 15/17/18/19/20/21/23/24 ~], and
    every other key (F0, F13 and up included) the empty sequence. *)
Theorem key_event_to_bytes_matches_spec (event : KeyEvent) :
  key_event_to_bytes event = spec_key_bytes event /\
  guest_key_event_to_bytes event = spec_key_bytes event.
Proof.
  destruct event as [code mods kind st].
  unfold key_event_to_bytes, guest_key_event_to_bytes, spec_key_bytes.
  cbn [KeyCodec.code KeyCodec.modifiers].
  destruct code; try (split; reflexivity).
  - split; apply fkey_codec.
  - rewrite ctrl_byte_low_bits. split; reflexivity.
Qed.

End KeyCodecFacts.

Module SessionNameFacts.
Import SessionName.

Lemma utf8_encode_nonempty (c : Z) : (1 <= length (utf8_encode c))%nat.
Proof.
  unfold utf8_encode.
  destruct (c <? 128), (c <? 2048), (c <? 65536); cbn; lia.
Qed.

Lemma str_len_zero (name : list Z) : str_len name = 0%nat <-> name = [].
Proof.
  unfold str_len, utf8_encode_str. split.
  - destruct name as [| c rest]; [reflexivity |].
    cbn [flat_map]. rewrite length_app.
    pose proof (utf8_encode_nonempty c). lia.
  - intros ->. reflexivity.
Qed.

Lemma name_class_same (c : Z) :
  is_ascii_alphanumeric c || (c =? 45) || (c =? 95) = in_name_class c.
Proof.
  change (in_name_class c) with
    (((65 <=? c) && (c <=? 90)) || ((97 <=? c) && (c <=? 122))
     || ((48 <=? c) && (c <=? 57)) || (c =? 95) || (c =? 45)).
  unfold is_ascii_alphanumeric.
  destruct ((48 <=? c) && (c <=? 57)), ((65 <=? c) && (c <=? 90)),
    ((97 <=? c) && (c <=? 122)), (c =? 45), (c =? 95); reflexivity.
Qed.

Lemma str_len_ascii (name : list Z) :
  forallb in_name_class name = true -> str_len name = length name.
Proof.
  unfold str_len, utf8_encode_str.
  induction name as [| c rest IH]; intros H; [reflexivity |].
  cbn [forallb] in H. apply andb_prop in H as [Hc Hrest].
  cbn [flat_map length]. rewrite length_app, (IH Hrest).
  assert (Hlt : (c <? 128) = true).
  { rewrite <- name_class_same in Hc. unfold is_ascii_alphanumeric in Hc.
    apply Z.ltb_lt.
    repeat match goal with
    | H : (_ || _)%bool = true |- _ => apply orb_prop in H as [H | H]
    | H : (_ && _)%bool = true |- _ => apply andb_prop in H as [? ?]
    | H : (_ <=? _) = true |- _ => apply Z.leb_le in H
    | H : (_ =? _) = true |- _ => apply Z.eqb_eq in H
    end; lia. }
  unfold utf8_encode. rewrite Hlt. reflexivity.
Qed.

Lemma forallb_name_class (name : list Z) :
  forallb (fun c => is_ascii_alphanumeric c || (c =? 45) || (c =? 95)) name
  = forallb in_name_class name.
Proof.
  induction name as [| c rest IH]; [reflexivity |].
  cbn [forallb]. rewrite name_class_same, IH. reflexivity.
Qed.

(** C6: for every name (given by its chars), [is_valid_session_name]
    accepts it exactly when it matches [^[A-Za-z0-9_-]{1,20}$]: the
    byte-length checks of the code agree with the char count of the
    pattern, because every accepted char is ASCII. *)
Theorem is_valid_session_name_regex (name : list Z) :
  is_valid_session_name name = matches_name_regex name.
Proof.
  unfold is_valid_session_name, matches_name_regex.
  rewrite forallb_name_class.
  destruct (forallb in_name_class name) eqn:Hf.
  - rewrite (str_len_ascii name Hf).
    destruct (Nat.eqb_spec (length name) 0), (Nat.ltb_spec 20 (length name)),
      (Nat.leb_spec 1 (length name)), (Nat.leb_spec (length name) 20);
      cbn; first [reflexivity | lia].
  - rewrite andb_false_r.
    destruct ((str_len name =? 0)%nat || (20 <? str_len name)%nat); reflexivity.
Qed.

End SessionNameFacts.

Module JwtFacts.
Import Jwt.

Lemma str_append_empty_r (s : string) : (s ++ "")%string = s.
Proof. induction s as [| a s IH]; cbn; [reflexivity |]. rewrite IH. reflexivity. Qed.

Lemma pad_count_step (L : nat) :
  (L mod 4 <> 0 ->
   (4 - (L + 1) mod 4) mod 4 = (4 - L mod 4) mod 4 - 1)%nat.
Proof.
  intros H. rewrite <- Nat.Div0.add_mod_idemp_l.
  pose proof (Nat.mod_upper_bound L 4 ltac:(lia)).
  destruct (L mod 4)%nat as [| [| [| [| r]]]]; cbn; lia.
Qed.

Lemma pad_count_fills (L : nat) : ((L + (4 - L mod 4) mod 4) mod 4 = 0)%nat.
Proof.
  rewrite <- Nat.Div0.add_mod_idemp_l.
  pose proof (Nat.mod_upper_bound L 4 ltac:(lia)).
  destruct (L mod 4)%nat as [| [| [| [| r]]]]; cbn; lia.
Qed.

Lemma eq_padding_length (k : nat) : String.length (eq_padding k) = k.
Proof. induction k as [| k IH]; cbn; [reflexivity | now rewrite IH]. Qed.

Lemma pad_loop_spec (fuel : nat) (p : string) :
  ((4 - String.length p mod 4) mod 4 <= fuel)%nat ->
  pad_loop fuel p = (p ++ eq_padding ((4 - String.length p mod 4) mod 4))%string.
Proof.
  revert p. induction fuel as [| fuel IH]; intros p Hf.
  - cbn [pad_loop].
    assert (Hk : ((4 - String.length p mod 4) mod 4 = 0)%nat) by lia.
    rewrite Hk. cbn [eq_padding]. now rewrite str_append_empty_r.
  - cbn [pad_loop].
    destruct (Nat.eqb_spec (String.length p mod 4) 0) as [H0 | H0].
    + rewrite H0. cbn [eq_padding]. now rewrite str_append_empty_r.
    + pose proof (pad_count_step (String.length p) H0) as Hk.
      rewrite IH; rewrite CryptoTestFacts.str_length_append; cbn [String.length].
      * rewrite <- CryptoTestFacts.str_append_assoc. cbn [String.append].
        f_equal. rewrite Hk.
        destruct ((4 - String.length p mod 4) mod 4)%nat as [| k] eqn:E.
        -- exfalso. pose proof (Nat.mod_upper_bound (String.length p) 4 ltac:(lia)).
           rewrite Nat.mod_small in E by lia. lia.
        -- replace (S k - 1)%nat with k by lia. reflexivity.
      * lia.
Qed.

(** C7: [is_token_valid] yields a verdict [Some b] exactly when the token
    has three dot-separated parts whose middle part decodes (URL-safe
    base64 without padding, else with padding, else with ['='] appended up
    to a multiple of four), the bytes are UTF-8, the text is JSON and its
    [exp] field is an [i64]; the verdict is [exp > now + 60]. In every
    other case (wrong part count, bad base64, non-UTF-8, non-JSON, missing
    or non-integer [exp]) it returns [None], and the caller, holding a MEK
    and stored tokens, then uses the stored access token as it is. *)
Theorem token_validity_check (P : JwtPrims) (now : Z) (token : string) :
  (forall b,
     is_token_valid P now token = Some b <->
     exists header payload_part signature payload payload_str json_value
       exp_value exp,
       split_dot token = [header; payload_part; signature] /\
       decode_payload P payload_part = Some payload /\
       from_utf8 P payload = Some payload_str /\
       json_from_str P payload_str = Some json_value /\
       value_get json_value "exp" = Some exp_value /\
       as_i64 exp_value = Some exp /\
       b = (now + TOKEN_REFRESH_BUFFER_SECS <? exp)) /\
  (forall part payload,
     decode_payload P part = Some payload <->
     url_safe_no_pad_decode P part = Some payload \/
     (url_safe_no_pad_decode P part = None /\
      (url_safe_decode P part = Some payload \/
       (url_safe_decode P part = None /\
        url_safe_decode P (pad_loop 3 part) = Some payload)))) /\
  (forall part,
     pad_loop 3 part
     = (part ++ eq_padding ((4 - String.length part mod 4) mod 4))%string /\
     (String.length (pad_loop 3 part) mod 4 = 0)%nat) /\
  (length (split_dot token) <> 3%nat -> is_token_valid P now token = None) /\
  (forall mek refresh_token_val refresh_token,
     is_token_valid P now token <> Some false ->
     ensure_authenticated_with_mek P now (Some mek)
       (Some (token, refresh_token_val)) refresh_token = UseToken token).
Proof.
  split; [| split; [| split; [| split]]].
  - intros b. unfold is_token_valid. split.
    + destruct (split_dot token) as [| h [| p [| s [| x rest]]]] eqn:Hs;
        try discriminate.
      destruct (decode_payload P p) as [payload |] eqn:Hd; [| discriminate].
      destruct (from_utf8 P payload) as [str |] eqn:Hu; [| discriminate].
      destruct (json_from_str P str) as [j |] eqn:Hj; [| discriminate].
      destruct (value_get j "exp") as [e |] eqn:He; cbn [option_map];
        [| discriminate].
      destruct (as_i64 e) as [exp |] eqn:Hi; [| discriminate].
      intros Hb. injection Hb as <-.
      exists h, p, s, payload, str, j, e, exp. repeat split; assumption.
    + intros (h & p & s & payload & str & j & e & exp
              & Hs & Hd & Hu & Hj & He & Hi & ->).
      rewrite Hs, Hd, Hu, Hj, He. cbn [option_map]. rewrite Hi. reflexivity.
  - intros part payload. unfold decode_payload.
    destruct (url_safe_no_pad_decode P part) as [b0 |];
      destruct (url_safe_decode P part) as [b1 |];
      split; intros H; try (intuition congruence).
  - intros part. rewrite pad_loop_spec.
    + split; [reflexivity |].
      rewrite CryptoTestFacts.str_length_append, eq_padding_length.
      apply pad_count_fills.
    + pose proof (Nat.mod_upper_bound (4 - String.length part mod 4) 4 ltac:(lia)). lia.
  - intros Hn. unfold is_token_valid.
    destruct (split_dot token) as [| h [| p [| s [| x rest]]]];
      cbn [length] in Hn; try reflexivity. contradiction.
  - intros mek rtok refresh Hnf. cbn [ensure_authenticated_with_mek].
    destruct (is_token_valid P now token) as [[|] |]; congruence.
Qed.

End JwtFacts.

Module DeviceFlowFacts.
Import DeviceFlow.

Ltac split_poll_step H :=
  unfold poll_step in H; cbv zeta in H;
  repeat match type of H with
  | context [if ?b then _ else _] => destruct b
  | context [match ?x with _ => _ end] => destruct x
  end; try discriminate.

Lemma poll_step_interval (expires : Z) (st st' : PollState) (tick : PollTick) :
  poll_step expires st tick = Continue st' ->
  current_interval_secs st' = current_interval_secs st \/
  current_interval_secs st' = current_interval_secs st + 5.
Proof.
  intros H. split_poll_step H; injection H as <-; cbn; lia.
Qed.

Lemma poll_loop_sorted (expires : Z) (st : PollState) (ticks : list PollTick) :
  Sorted Z.le (current_interval_secs st :: snd (poll_loop expires st ticks)).
Proof.
  revert st. induction ticks as [| t rest IH]; intros st; cbn [poll_loop].
  - repeat constructor.
  - destruct (poll_step expires st t) as [st' | r] eqn:E.
    + specialize (IH st').
      destruct (poll_loop expires st' rest) as [o trace]. cbn [snd] in *.
      constructor; [exact IH |].
      constructor. apply poll_step_interval in E. lia.
    + repeat constructor.
Qed.

(** C8: in the device-flow poll loop, a [slow_down] reply to a poll raises
    the interval by exactly 5 s and every other turn that goes on keeps it,
    so the intervals over a poll are non-decreasing; the local deadline or
    an [expired_token] reply ends the poll with [ExpiredToken], on which
    [authenticate] starts over with one more POST /auth/device and polls
    again, while [access_denied] ends the poll and the whole flow with
    [AccessDenied]. *)
Theorem device_flow_polling (expires : Z) (st : PollState) (tick : PollTick) :
  (forall st',
     poll_step expires st tick = Continue st' ->
     current_interval_secs st' = current_interval_secs st \/
     (current_interval_secs st' = current_interval_secs st + 5 /\
      exists desc, tick_reply tick = OAuthError "slow_down" desc)) /\
  (forall err desc,
     tick_key tick = None ->
     tick_elapsed_ms tick < expires * 1000 ->
     (current_interval_secs st * 1000) / ANIMATION_INTERVAL_MS
       <= ticks_until_poll st + 1 ->
     tick_reply tick = OAuthError err desc ->
     (err = "slow_down"%string ->
        poll_step expires st tick
        = Continue {| current_interval_secs := current_interval_secs st + 5;
                      ticks_until_poll := 0 |}) /\
     (err = "expired_token"%string ->
        poll_step expires st tick = Stop (AuthErr ExpiredToken)) /\
     (err = "access_denied"%string ->
        exists d, poll_step expires st tick = Stop (AuthErr (AccessDenied d)))) /\
  (tick_key tick = None ->
   expires * 1000 <= tick_elapsed_ms tick ->
   poll_step expires st tick = Stop (AuthErr ExpiredToken)) /\
  (forall interval ticks,
     Sorted Z.le (interval :: snd (poll_for_token interval expires ticks))) /\
  (forall dr ticks rest,
     fst (poll_for_token (DeviceFlow.interval dr) (DeviceFlow.expires_in dr) ticks)
       = PollFinished (AuthErr ExpiredToken) ->
     authenticate ((inl dr, ticks) :: rest)
     = (fst (authenticate rest), S (snd (authenticate rest)))) /\
  (forall dr ticks rest d,
     fst (poll_for_token (DeviceFlow.interval dr) (DeviceFlow.expires_in dr) ticks)
       = PollFinished (AuthErr (AccessDenied d)) ->
     authenticate ((inl dr, ticks) :: rest)
     = (Finished (AuthErr (AccessDenied d)), 1%nat)).
Proof.
  split; [| split; [| split; [| split; [| split]]]].
  - intros st' H.
    destruct (poll_step_interval expires st st' tick H) as [E | E]; [now left |].
    right. split; [exact E |].
    unfold poll_step in H; cbv zeta in H.
    destruct (match tick_key tick with
              | Some ke => _ | None => None end); [discriminate |].
    destruct (expires * 1000 <=? tick_elapsed_ms tick); [discriminate |].
    destruct (ticks_until_poll st + 1 <? _).
    + injection H as <-. cbn in E. lia.
    + destruct (tick_reply tick) as [t | err desc | m |]; try discriminate.
      destruct (String.eqb_spec err "authorization_pending").
      { injection H as <-. cbn in E. lia. }
      destruct (String.eqb_spec err "slow_down") as [-> |].
      { now exists desc. }
      destruct (String.eqb err "expired_token"); [discriminate |].
      destruct (String.eqb err "access_denied"); discriminate.
  - intros err desc Hk He Ht Hr.
    unfold poll_step. rewrite Hk, Hr. cbv zeta.
    replace (expires * 1000 <=? tick_elapsed_ms tick) with false
      by (symmetry; apply Z.leb_gt; exact He).
    replace (ticks_until_poll st + 1 <? current_interval_secs st * 1000 / ANIMATION_INTERVAL_MS)
      with false by (symmetry; apply Z.ltb_ge; exact Ht).
    split; [| split]; intros ->; cbn; [reflexivity | reflexivity |].
    eexists. reflexivity.
  - intros Hk He. unfold poll_step. rewrite Hk. cbv zeta.
    apply Z.leb_le in He. rewrite He. reflexivity.
  - intros interval ticks. unfold poll_for_token.
    exact (poll_loop_sorted expires
             {| current_interval_secs := interval; ticks_until_poll := 0 |} ticks).
  - intros dr ticks rest H. cbn [authenticate]. rewrite H.
    destruct (authenticate rest). reflexivity.
  - intros dr ticks rest d H. cbn [authenticate]. rewrite H. reflexivity.
Qed.

End DeviceFlowFacts.

Module StatusLineFacts.
Import StatusLine.

(** C9: the truncation is not total. Each of the three status strings of
    [app::run] has its U+25CF at bytes 7..9, so a terminal 8 or 9 columns
    wide makes [&status[..cols]] cut inside that char, and
    [draw_status_line] panics, whatever the row count. *)
Theorem draw_status_line_panics_mid_char :
  Forall (fun status =>
            firstn 3 (skipn 7 (utf8_encode_str status)) = utf8_encode BULLET /\
            (9 < length (utf8_encode_str status))%nat /\
            forall rows,
              draw_status_line 8 rows status
              = Panicked "byte index is not a char boundary" /\
              draw_status_line 9 rows status
              = Panicked "byte index is not a char boundary")
         [status_attached; status_reconnecting; status_offline].
Proof.
  repeat constructor; try (vm_compute; reflexivity).
Qed.

End StatusLineFacts.

Module InterceptorFacts.
Import Interceptor.

(** C10: a non-command line is not forwarded byte for byte. The byte
    0xE9 typed after a ['/'] at line start is buffered as the char U+00E9
    ([byte as char]) and forwarded as its two UTF-8 bytes C3 A9, so the
    line "/\xE9\r" reaches the PTY as "/\xC3\xA9\r". *)
Theorem process_reencodes_high_byte :
  snd (fst (process 0 new_interceptor [47; 233; 13])) = [47; 195; 169; 13] /\
  snd (process 0 new_interceptor [47; 233; 13]) = [] /\
  [47; 195; 169; 13] <> [47; 233; 13].
Proof.
  split; [vm_compute; reflexivity |].
  split; [vm_compute; reflexivity | discriminate].
Qed.

End InterceptorFacts.

Module CryptoMekFacts.
Import Crypto CryptoMek.

(** Sealing then opening with [aes_gcm_encrypt] / [aes_gcm_decrypt]
    under the same key and a 12-byte nonce gives the plaintext back. *)
Lemma aes_gcm_roundtrip (P : CryptoPrims)
    (Haead : forall key n pt, length n = NONCE_SIZE ->
       aes256gcm_decrypt P key n (aes256gcm_encrypt P key n pt) = Some pt)
    (Hlen : forall key n pt,
       length (aes256gcm_encrypt P key n pt) = (length pt + TAG_SIZE)%nat)
    (key nonce_bytes pt : bytes) (Hnonce : length nonce_bytes = NONCE_SIZE) :
  exists ct t,
    aes_gcm_encrypt P key nonce_bytes pt = Done (ct, nonce_bytes, t) /\
    length t = TAG_SIZE /\ length ct = length pt /\
    aes_gcm_decrypt P key ct nonce_bytes t = Done pt.
Proof.
  set (c := aes256gcm_encrypt P key nonce_bytes pt).
  assert (Hc : length c = (length pt + TAG_SIZE)%nat) by apply Hlen.
  unfold aes_gcm_encrypt. fold c.
  replace (length c <? TAG_SIZE)%nat with false
    by (symmetry; apply Nat.ltb_ge; rewrite Hc; lia).
  replace (length c - TAG_SIZE)%nat with (length pt) by (rewrite Hc; lia).
  exists (firstn (length pt) c), (skipn (length pt) c).
  split; [reflexivity|].
  split; [rewrite length_skipn, Hc; lia|].
  split; [rewrite length_firstn, Hc; lia|].
  unfold aes_gcm_decrypt. rewrite firstn_skipn. unfold c.
  rewrite Haead by exact Hnonce. reflexivity.
Qed.

(** X1: a MEK wrapped by [encrypt_mek] under the KEK [derive_kek]
    gives for a password and a 16-byte salt is unwrapped by
    [decrypt_mek] with that password: the result is the 32-byte MEK.
    The AEAD is assumed correct and length-preserving up to its tag, and
    base64 is assumed to round-trip. *)
Theorem mek_wrap_roundtrip (P : CryptoPrims) (K : KdfPrims)
    (Haead : forall key n pt, length n = NONCE_SIZE ->
       aes256gcm_decrypt P key n (aes256gcm_encrypt P key n pt) = Some pt)
    (Hlen : forall key n pt,
       length (aes256gcm_encrypt P key n pt) = (length pt + TAG_SIZE)%nat)
    (Hb64 : forall data, b64_decode P (b64_encode P data) = inl data)
    (password : list Z) (salt_arr nonce_bytes mek kek : bytes)
    (Hsalt : length salt_arr = SALT_SIZE)
    (Hnonce : length nonce_bytes = NONCE_SIZE)
    (Hmek : length mek = KEY_SIZE)
    (Hkek : derive_kek K password salt_arr = Done kek) :
  exists stored,
    encrypt_mek P kek mek salt_arr nonce_bytes = Done stored /\
    decrypt_mek P K stored password = Done mek.
Proof.
  destruct (aes_gcm_roundtrip P Haead Hlen kek nonce_bytes mek Hnonce)
    as (ct & t & Henc & Ht & Hct & Hdec).
  unfold encrypt_mek. rewrite Henc.
  eexists; split; [reflexivity|].
  unfold decrypt_mek, base64_decode, base64_encode; cbn [v salt nonce encrypted_mek tag].
  rewrite !Hb64.
  unfold copy_from_slice.
  rewrite Hsalt, Hnonce, Ht, Hct, Hmek. cbn -[derive_kek aes_gcm_decrypt].
  rewrite Hkek, Hdec, Hmek. reflexivity.
Qed.

(** The wrap round trip on the test instances: password "hunter2", salt
    0..15, MEK 32 x 0x2A. *)
Lemma mek_wrap_roundtrip_witness :
  length (map Z.of_nat (seq 0 16)) = SALT_SIZE /\
  length (map Z.of_nat (seq 0 12)) = NONCE_SIZE /\
  length (repeat 42 32) = KEY_SIZE /\
  derive_kek CryptoMekTestInstance.toy_kdf (StatusLine.chars_of_string "hunter2")
    (map Z.of_nat (seq 0 16))
    = Done (firstn 32 (bytes_of_string "hunter2" ++ map Z.of_nat (seq 0 16)
                       ++ repeat 0 32)) /\
  exists stored,
    encrypt_mek CryptoTestInstance.toy_prims
      (firstn 32 (bytes_of_string "hunter2" ++ map Z.of_nat (seq 0 16) ++ repeat 0 32))
      (repeat 42 32) (map Z.of_nat (seq 0 16)) (map Z.of_nat (seq 0 12))
      = Done stored /\
    decrypt_mek CryptoTestInstance.toy_prims CryptoMekTestInstance.toy_kdf stored
      (StatusLine.chars_of_string "hunter2") = Done (repeat 42 32).
Proof.
  split; [reflexivity|]. split; [reflexivity|]. split; [reflexivity|].
  split; [reflexivity|].
  apply (mek_wrap_roundtrip CryptoTestInstance.toy_prims CryptoMekTestInstance.toy_kdf
           (fun key n pt _ => CryptoTestFacts.toy_open_seal key n pt)
           CryptoTestFacts.toy_seal_length
           CryptoTestFacts.toy_decode_encode); reflexivity.
Defined.

Ltac destr_match :=
  match goal with
  | |- context [match ?x with _ => _ end] =>
      lazymatch x with context [match _ with _ => _ end] => fail | _ => idtac end;
      let H := fresh "Hm" in destruct x eqn:H; cbv beta iota
  end.

(** X2: [decrypt_mek] never panics, and what it returns is a 32-byte
    key.  The password and Argon2 can only matter for a well-formed
    envelope (version 1, four valid base64 fields of 16, 12, 32 and 16
    bytes): on any other envelope the result is the same crypto error
    whatever the password and the key-derivation primitives. *)
Theorem decrypt_mek_safe (P : CryptoPrims) (K : KdfPrims) (stored : StoredMEK)
    (password : list Z) :
  (forall r, decrypt_mek P K stored password <> Panicked r) /\
  (forall mek, decrypt_mek P K stored password = Done mek -> length mek = KEY_SIZE) /\
  (forall K' password',
     (exists m, decrypt_mek P K stored password = Failed (CryptoError m) /\
                decrypt_mek P K' stored password' = Failed (CryptoError m)) \/
     (v stored = 1 /\
      exists sb nb cb tb,
        b64_decode P (salt stored) = inl sb /\ b64_decode P (nonce stored) = inl nb /\
        b64_decode P (encrypted_mek stored) = inl cb /\
        b64_decode P (tag stored) = inl tb /\
        length sb = SALT_SIZE /\ length nb = NONCE_SIZE /\
        length cb = KEY_SIZE /\ length tb = TAG_SIZE)).
Proof.
  split; [|split].
  - intros r. unfold decrypt_mek, base64_decode, copy_from_slice, derive_kek,
      aes_gcm_decrypt, negb.
    repeat destr_match; discriminate.
  - intros mek. unfold decrypt_mek, base64_decode, copy_from_slice, derive_kek,
      aes_gcm_decrypt, negb.
    repeat destr_match; try discriminate.
    intros H; injection H as <-. apply Nat.eqb_eq. assumption.
  - intros K' password'. unfold decrypt_mek, base64_decode.
    destruct (v stored =? 1) eqn:Hv; cbn [negb];
      [|left; eexists; split; reflexivity].
    destruct (b64_decode P (salt stored)) as [sb|e] eqn:Hs;
      [|left; eexists; split; reflexivity].
    destruct (b64_decode P (nonce stored)) as [nb|e] eqn:Hn;
      [|left; eexists; split; reflexivity].
    destruct (b64_decode P (encrypted_mek stored)) as [cb|e] eqn:Hc;
      [|left; eexists; split; reflexivity].
    destruct (b64_decode P (tag stored)) as [tb|e] eqn:Ht;
      [|left; eexists; split; reflexivity].
    destruct (length sb =? SALT_SIZE)%nat eqn:Ls; cbn [negb];
      [|left; eexists; split; reflexivity].
    destruct (length nb =? NONCE_SIZE)%nat eqn:Ln; cbn [negb];
      [|left; eexists; split; reflexivity].
    destruct (length cb =? KEY_SIZE)%nat eqn:Lc; cbn [negb];
      [|left; eexists; split; reflexivity].
    destruct (length tb =? TAG_SIZE)%nat eqn:Lt; cbn [negb];
      [|left; eexists; split; reflexivity].
    right. split; [apply Z.eqb_eq; assumption|].
    exists sb, nb, cb, tb.
    apply Nat.eqb_eq in Ls, Ln, Lc, Lt. auto 10.
Qed.

(** X3: [decrypt_mek_from_pairing] never panics and what it returns is
    a 32-byte key; an envelope of another version is refused before the
    dashboard key is looked at, and a dashboard key that is not a valid
    SEC1 encoding, or not a point of the curve, is refused with
    "Invalid public key format: ..." or "Invalid public key point". *)
Theorem decrypt_mek_from_pairing_safe (P : CryptoPrims) (K : KdfPrims)
    (private_key dash_public_key : bytes) (encrypted : EncryptedMEK) :
  (forall r, decrypt_mek_from_pairing P K private_key dash_public_key encrypted
             <> Panicked r) /\
  (forall mek, decrypt_mek_from_pairing P K private_key dash_public_key encrypted
               = Done mek -> length mek = KEY_SIZE) /\
  (em_v encrypted <> 1 ->
   decrypt_mek_from_pairing P K private_key dash_public_key encrypted
   = Failed (CryptoError "Unsupported encrypted MEK version")) /\
  (em_v encrypted = 1 -> forall e, sec1_encoded_point K dash_public_key = inr e ->
   decrypt_mek_from_pairing P K private_key dash_public_key encrypted
   = Failed (CryptoError ("Invalid public key format: " ++ e)%string)) /\
  (em_v encrypted = 1 -> forall pt, sec1_encoded_point K dash_public_key = inl pt ->
   p256_public_key K pt = None ->
   decrypt_mek_from_pairing P K private_key dash_public_key encrypted
   = Failed (CryptoError "Invalid public key point")).
Proof.
  unfold decrypt_mek_from_pairing, compute_ecdh_shared_key.
  split; [|split; [|split; [|split]]].
  - intros r. unfold base64_decode, copy_from_slice, aes_gcm_decrypt, negb.
    repeat destr_match; discriminate.
  - intros mek. unfold base64_decode, copy_from_slice, aes_gcm_decrypt, negb.
    repeat destr_match; try discriminate.
    intros H; injection H as <-. apply Nat.eqb_eq. assumption.
  - intros Hv. apply Z.eqb_neq in Hv. rewrite Hv. reflexivity.
  - intros Hv e He. apply Z.eqb_eq in Hv. rewrite Hv, He. reflexivity.
  - intros Hv pt Hpt Hnone. apply Z.eqb_eq in Hv. rewrite Hv, Hpt, Hnone. reflexivity.
Qed.

End CryptoMekFacts.

Module WsClientFacts.
Import WsClient.

Section WithEnv.
Variable P : Crypto.CryptoPrims.
Variable to_json : OutgoingMessage.t -> bytes.
Variable from_json : bytes -> option IncomingMessage.t.
Variable send_ok : Message.t -> bool.

Ltac ws_unfold :=
  unfold recv, handle_raw_message, close, send_session_attach, send_session_detach,
    send_pong, do_connect, drain_message_queue, send_message, queue_message,
    sink_send, keys_of, set_sent, set_queue, set_connected, set_attempt,
    install_stream in *.

Lemma send_message_keys (now : Z) (c : WebSocketClient) (msg : OutgoingMessage.t) :
  keys_of (fst (send_message to_json send_ok now c msg)) = keys_of c.
Proof.
  ws_unfold. destruct (is_connected c), (sender_present c); cbn; try reflexivity.
  destruct (send_ok _); reflexivity.
Qed.

Lemma drain_keys (now : Z) (c : WebSocketClient) :
  keys_of (fst (drain_message_queue to_json send_ok now c)) = keys_of c.
Proof.
  ws_unfold. destruct (Queue.drain_message_queue _ _ _ _) as [[? ?] ?]. reflexivity.
Qed.

Lemma do_connect_keys (now : Z) (r : outcome unit) (c : WebSocketClient) :
  keys_of (fst (do_connect to_json send_ok now r c)) = keys_of c.
Proof.
  unfold do_connect. destruct r; [|reflexivity|reflexivity].
  rewrite drain_keys. reflexivity.
Qed.

Lemma reconnect_keys (now jitter : Z) (r : outcome unit) (c : WebSocketClient) :
  keys_of (fst (reconnect to_json send_ok now jitter r c)) = keys_of c.
Proof.
  unfold reconnect. destruct (Backoff.reconnect _ _) as [|n d]; [reflexivity|].
  pose proof (do_connect_keys (now + d) r (set_attempt c n)) as H.
  destruct (do_connect to_json send_ok (now + d) r (set_attempt c n)) as [c2 r2]. cbn in H.
  destruct r2; cbn.
  - unfold send_session_attach.
    pose proof (send_message_keys (now + d) c2 (attach_message c2)) as H3.
    destruct (send_message to_json send_ok (now + d) c2 (attach_message c2)) as [c3 r3].
    cbn in *. rewrite H3. exact H.
  - exact H.
  - exact H.
Qed.

Lemma recv_keys (next : option (Message.t + string)) (c : WebSocketClient) :
  keys_of (fst (recv from_json send_ok next c)) = keys_of c.
Proof.
  ws_unfold. destruct (receiver_present c); cbn; [|reflexivity].
  destruct next as [[m|e]|]; cbn; try reflexivity.
  destruct m; cbn; try reflexivity.
  - destruct (Utf8.utf8_valid data); reflexivity.
  - destruct (sender_present c); cbn; [destruct (send_ok (Message.Pong data))|]; reflexivity.
Qed.

Lemma close_keys (now : Z) (c : WebSocketClient) :
  keys_of (fst (close to_json send_ok now c)) = keys_of c.
Proof.
  unfold close.
  assert (H1 : keys_of (if is_connected c
                        then fst (send_session_detach to_json send_ok now c) else c)
               = keys_of c)
    by (destruct (is_connected c); [apply send_message_keys | reflexivity]).
  set (c1 := if is_connected c then _ else c) in *.
  destruct (sender_present c1); unfold sink_send; cbn;
    [destruct (send_ok _)|]; exact H1.
Qed.

Lemma consistent_keys (c c' : WebSocketClient) :
  keys_of c' = keys_of c ->
  session_key_consistent P c -> session_key_consistent P c'.
Proof.
  unfold keys_of, session_key_consistent. intros H Hc k Hk.
  injection H as Hcfg Hm Hs. rewrite Hcfg, Hm. apply Hc. congruence.
Qed.

Lemma get_key_consistent (c : WebSocketClient) :
  session_key_consistent P c ->
  let '(c1, sk) := get_or_derive_session_key P c in
  cfg c1 = cfg c /\ mek c1 = mek c /\ session_key_consistent P c1 /\
  sk = option_map (fun m => Crypto.derive_session_key P m (session_id (cfg c))) (mek c).
Proof.
  intros Hc. unfold get_or_derive_session_key.
  destruct (session_key c) as [k|] eqn:Hk.
  - destruct (Hc k Hk) as [m [Hm ->]]. rewrite Hm. auto.
  - destruct (mek c) as [m|] eqn:Hm; cbn.
    + split; [reflexivity|]. split; [assumption|]. split; [|reflexivity].
      intros k Hk'. injection Hk' as <-. exists m. split; [assumption|reflexivity].
    + split; [reflexivity|]. split; [congruence|]. split; [assumption|reflexivity].
Qed.

Lemma run_op_consistent (c : WebSocketClient) (op : ClientOp) :
  session_key_consistent P c ->
  cfg (run_op P to_json from_json send_ok c op) = cfg c /\
  session_key_consistent P (run_op P to_json from_json send_ok c op).
Proof.
  intros Hc. destruct op; cbn [run_op].
  - unfold send_output. pose proof (get_key_consistent c Hc) as Hg.
    destruct (get_or_derive_session_key P c) as [c1 sk].
    destruct Hg as [Hcfg [_ [Hc1 _]]].
    destruct sk as [k|]; [|split; assumption].
    destruct (Crypto.encrypt_content P k nonce_bytes data); cbn; try (split; assumption).
    pose proof (send_message_keys now c1
      (OutgoingMessage.EncryptedOutput (session_id (cfg c1)) a timestamp)) as Hs.
    split; [|eapply consistent_keys; eassumption].
    unfold keys_of in Hs. injection Hs as Hs _ _. congruence.
  - unfold decrypt_prompt. pose proof (get_key_consistent c Hc) as Hg.
    destruct (get_or_derive_session_key P c) as [c1 sk].
    destruct Hg as [Hcfg [_ [Hc1 _]]].
    destruct sk; cbn; split; assumption.
  - split; [reflexivity|]. intros k Hk. discriminate.
  - split; [reflexivity|]. intros k Hk. discriminate.
  - pose proof (recv_keys next c) as H. split; [|eapply consistent_keys; eassumption].
    unfold keys_of in H. injection H as H _ _. exact H.
  - pose proof (send_message_keys now c OutgoingMessage.Pong) as H.
    split; [|eapply consistent_keys; eassumption].
    unfold keys_of in H. injection H as H _ _. exact H.
  - pose proof (send_message_keys now c
      (OutgoingMessage.SessionDetach (session_id (cfg c)))) as H.
    split; [|eapply consistent_keys; eassumption].
    unfold keys_of in H. injection H as H _ _. exact H.
  - pose proof (reconnect_keys now jitter connect_result c) as H.
    split; [|eapply consistent_keys; eassumption].
    unfold keys_of in H. injection H as H _ _. exact H.
  - pose proof (close_keys now c) as H.
    split; [|eapply consistent_keys; eassumption].
    unfold keys_of in H. injection H as H _ _. exact H.
Qed.

Lemma reconnect_step_lt (a jitter : Z) :
  a < Backoff.MAX_RECONNECT_ATTEMPTS ->
  Backoff.reconnect a jitter
  = Backoff.SleepThenConnect (a + 1) (Backoff.backoff_delay (a + 1) jitter).
Proof.
  intros H. unfold Backoff.reconnect.
  replace (Backoff.MAX_RECONNECT_ATTEMPTS <=? a) with false
    by (symmetry; apply Z.leb_gt; exact H).
  reflexivity.
Qed.

Lemma backoff_delay_le_max (n jitter : Z) :
  Backoff.backoff_delay n jitter <= Backoff.MAX_BACKOFF_MS.
Proof. unfold Backoff.backoff_delay. apply Z.le_min_r. Qed.

Lemma reconnect_success_core (now jitter : Z) (c : WebSocketClient) :
  (forall f, send_ok f = true) ->
  reconnect_attempt c < Backoff.MAX_RECONNECT_ATTEMPTS ->
  let d := Backoff.backoff_delay (reconnect_attempt c + 1) jitter in
  let '(c', r) := reconnect to_json send_ok now jitter (Done tt) c in
  r = Done true /\ is_connected c' = true /\ reconnect_attempt c' = 0 /\
  message_queue c' = [] /\ keys_of c' = keys_of c /\
  sent c' = sent c
    ++ map (fun q => Message.Text (to_json (Queue.message q)))
         (filter (QueueFacts.fresh (now + d)) (message_queue c))
    ++ [Message.Text (to_json (attach_message c))].
Proof.
  intros Hok Ha. cbv zeta. unfold reconnect. rewrite (reconnect_step_lt _ _ Ha).
  unfold do_connect, drain_message_queue, Queue.drain_message_queue.
  cbn [message_queue install_stream set_attempt sender_present].
  rewrite QueueFacts.drain_loop_all_sent by (intros; apply Hok).
  unfold send_session_attach, send_message, sink_send. cbn. rewrite Hok. cbn.
  repeat split. rewrite <- app_assoc. reflexivity.
Qed.

Lemma lastn_snoc {A} (n : nat) (l : list A) (x : A) :
  (1 <= n)%nat -> exists l', Queue.lastn n (l ++ [x]) = l' ++ [x].
Proof.
  intros Hn. unfold Queue.lastn. rewrite length_app. cbn [length].
  rewrite skipn_app.
  replace (length l + 1 - n - length l)%nat with O by lia.
  eexists. reflexivity.
Qed.

End WithEnv.

(** X4: over any sequence of calls to the client's public methods
    ([send_output], [decrypt_prompt], [set_mek], [clear_mek], [recv],
    [send_pong], [send_session_detach], [reconnect], [close]) from a
    client whose cached session key (if any) is derived from its MEK,
    the cache stays consistent, so the key [get_or_derive_session_key]
    hands to [send_output] and [decrypt_prompt] is always
    [derive_session_key] of the current MEK and the session id, and there
    is none once the MEK is cleared: a key derived from a replaced MEK is
    never used again. *)
Theorem session_key_follows_mek (P : Crypto.CryptoPrims)
    (to_json : OutgoingMessage.t -> bytes)
    (from_json : bytes -> option IncomingMessage.t) (send_ok : Message.t -> bool)
    (c : WebSocketClient) (ops : list ClientOp)
    (Hc : session_key_consistent P c) :
  let c' := run_ops P to_json from_json send_ok c ops in
  cfg c' = cfg c /\ session_key_consistent P c' /\
  snd (get_or_derive_session_key P c')
  = option_map (fun m => Crypto.derive_session_key P m (session_id (cfg c))) (mek c').
Proof.
  cbv zeta. unfold run_ops.
  assert (H : forall ops c0, session_key_consistent P c0 -> cfg c0 = cfg c ->
            let c' := fold_left (run_op P to_json from_json send_ok) ops c0 in
            cfg c' = cfg c /\ session_key_consistent P c').
  { induction ops0 as [|op ops0 IH]; intros c0 H0 Hcfg; cbn; [auto|].
    destruct (run_op_consistent P to_json from_json send_ok c0 op H0) as [H1 H2].
    apply IH; [assumption | congruence]. }
  destruct (H ops c Hc eq_refl) as [Hcfg Hc'].
  split; [exact Hcfg|]. split; [exact Hc'|].
  pose proof (get_key_consistent P _ Hc') as Hg.
  destruct (get_or_derive_session_key P _) as [c1 sk].
  destruct Hg as [_ [_ [_ ->]]]. rewrite Hcfg. reflexivity.
Qed.

(** X4 on the test instance: set a MEK, send output, replace the MEK. *)
Lemma session_key_follows_mek_witness :
  session_key_consistent CryptoTestInstance.toy_prims (new_client {| session_id := "s1"; device_id := "d"; device_name := "n";
                    cwd := "/"; session_name := None |}) /\
  let c' := run_ops CryptoTestInstance.toy_prims (fun _ => [1]) (fun _ => None)
              (fun _ => true) (new_client {| session_id := "s1"; device_id := "d"; device_name := "n";
                    cwd := "/"; session_name := None |})
              [SetMek (repeat 1 32); SendOutput 0 (repeat 0 12) "t" [104];
               SetMek (repeat 2 32)] in
  cfg c' = cfg (new_client {| session_id := "s1"; device_id := "d"; device_name := "n";
                    cwd := "/"; session_name := None |}) /\
  session_key_consistent CryptoTestInstance.toy_prims c' /\
  snd (get_or_derive_session_key CryptoTestInstance.toy_prims c')
  = option_map (fun m => Crypto.derive_session_key CryptoTestInstance.toy_prims m
                           (session_id (cfg (new_client {| session_id := "s1"; device_id := "d"; device_name := "n";
                    cwd := "/"; session_name := None |})))) (mek c').
Proof.
  assert (H0 : session_key_consistent CryptoTestInstance.toy_prims (new_client {| session_id := "s1"; device_id := "d"; device_name := "n";
                    cwd := "/"; session_name := None |}))
    by (intros k Hk; discriminate Hk).
  split; [exact H0|].
  exact (session_key_follows_mek CryptoTestInstance.toy_prims (fun _ => [1])
           (fun _ => None) (fun _ => true) (new_client {| session_id := "s1"; device_id := "d"; device_name := "n";
                    cwd := "/"; session_name := None |})
           [SetMek (repeat 1 32); SendOutput 0 (repeat 0 12) "t" [104];
            SetMek (repeat 2 32)] H0).
Defined.


(** X5: [reconnect] gives up with [Ok(false)], leaving the client as it
    is, once 10 attempts have been counted.  Below that it counts the
    attempt; a failed [do_connect] returns its error with the attempt
    kept.  When the connection succeeds and the sink accepts every frame,
    it returns [Ok(true)] with the client connected, the counter back at
    0 and the queue empty, after sending, in queue order, every queued
    message younger than five minutes at the end of the backoff sleep,
    followed by the [SessionAttach] message. *)
Theorem reconnect_resumes_session (to_json : OutgoingMessage.t -> bytes) (send_ok : Message.t -> bool)
    (now jitter : Z) (c : WebSocketClient) :
  (Backoff.MAX_RECONNECT_ATTEMPTS <= reconnect_attempt c ->
   forall r, reconnect to_json send_ok now jitter r c = (c, Done false)) /\
  (reconnect_attempt c < Backoff.MAX_RECONNECT_ATTEMPTS -> forall e,
   reconnect to_json send_ok now jitter (Failed e) c
   = (set_attempt c (reconnect_attempt c + 1), Failed e)) /\
  ((forall f, send_ok f = true) ->
   reconnect_attempt c < Backoff.MAX_RECONNECT_ATTEMPTS ->
   let d := Backoff.backoff_delay (reconnect_attempt c + 1) jitter in
   let '(c', r) := reconnect to_json send_ok now jitter (Done tt) c in
   r = Done true /\ is_connected c' = true /\ reconnect_attempt c' = 0 /\
   message_queue c' = [] /\
   sent c' = sent c
     ++ map (fun q => Message.Text (to_json (Queue.message q)))
          (filter (QueueFacts.fresh (now + d)) (message_queue c))
     ++ [Message.Text (to_json (attach_message c))]).
Proof.
  split; [|split].
  - intros Ha r. unfold reconnect, Backoff.reconnect.
    replace (Backoff.MAX_RECONNECT_ATTEMPTS <=? reconnect_attempt c) with true
      by (symmetry; apply Z.leb_le; exact Ha).
    reflexivity.
  - intros Ha e. unfold reconnect. rewrite (reconnect_step_lt _ _ Ha). reflexivity.
  - intros Hok Ha. cbv zeta.
    pose proof (reconnect_success_core to_json send_ok now jitter c Hok Ha) as H.
    cbv zeta in H.
    destruct (reconnect to_json send_ok now jitter (Done tt) c) as [c' r].
    destruct H as (H1 & H2 & H3 & H4 & _ & H6). auto.
Qed.

(** X6: a message [send_message] is given while the client is
    disconnected is queued (nothing is sent, the call returns [Ok]); if
    the next [reconnect] starts less than 270 s later, connects, and the
    sink accepts every frame, the message is sent on the new connection,
    after the older queued messages and immediately before the
    [SessionAttach] message: the backoff sleep is at most 30 s, so the
    message is still younger than the five-minute limit. *)
Theorem offline_message_delivered (to_json : OutgoingMessage.t -> bytes) (send_ok : Message.t -> bool)
    (now now' jitter : Z) (c : WebSocketClient) (msg : OutgoingMessage.t)
    (Hdisc : is_connected c = false)
    (Hok : forall f, send_ok f = true)
    (Ha : reconnect_attempt c < Backoff.MAX_RECONNECT_ATTEMPTS)
    (Ht : now <= now' < now + 270000) :
  let '(c1, r1) := send_message to_json send_ok now c msg in
  r1 = Done tt /\ sent c1 = sent c /\
  let '(c2, r2) := reconnect to_json send_ok now' jitter (Done tt) c1 in
  r2 = Done true /\ is_connected c2 = true /\
  exists older,
    sent c2 = sent c ++ older
      ++ [Message.Text (to_json msg); Message.Text (to_json (attach_message c))].
Proof.
  unfold send_message at 1. rewrite Hdisc. cbn [negb].
  split; [reflexivity|]. split; [reflexivity|].
  set (c1 := queue_message now msg c).
  assert (Ha1 : reconnect_attempt c1 < Backoff.MAX_RECONNECT_ATTEMPTS) by exact Ha.
  pose proof (reconnect_success_core to_json send_ok now' jitter c1 Hok Ha1) as H.
  cbv zeta in H.
  destruct (reconnect to_json send_ok now' jitter (Done tt) c1) as [c2 r2].
  destruct H as (H1 & H2 & _ & _ & _ & H6).
  split; [exact H1|]. split; [exact H2|].
  set (d := Backoff.backoff_delay (reconnect_attempt c1 + 1) jitter) in H6.
  assert (Hd : d <= Backoff.MAX_BACKOFF_MS) by apply backoff_delay_le_max.
  destruct (lastn_snoc Queue.MAX_QUEUE_SIZE
              (filter (QueueFacts.fresh now) (message_queue c))
              {| Queue.message := msg; Queue.timestamp := now |}
              ltac:(unfold Queue.MAX_QUEUE_SIZE; lia)) as [l' Hl].
  assert (Hq : message_queue c1
               = l' ++ [{| Queue.message := msg; Queue.timestamp := now |}]).
  { unfold c1, queue_message, set_queue. cbn [message_queue].
    rewrite QueueFacts.queue_message_lastn. exact Hl. }
  assert (Hf : QueueFacts.fresh (now' + d)
                 {| Queue.message := msg; Queue.timestamp := now |} = true).
  { unfold QueueFacts.fresh, Queue.duration_since, Queue.MAX_QUEUE_AGE.
    cbn [Queue.timestamp]. apply Z.ltb_lt.
    unfold Backoff.MAX_BACKOFF_MS in Hd. lia. }
  rewrite H6, Hq, filter_app. cbn [filter]. rewrite Hf.
  rewrite map_app. cbn [map Queue.message].
  exists (map (fun q => Message.Text (to_json (Queue.message q)))
            (filter (QueueFacts.fresh (now' + d)) l')).
  change (sent c1) with (sent c). change (attach_message c1) with (attach_message c).
  rewrite <- !app_assoc. reflexivity.
Qed.

(** X6 on a fresh client: a [Pong] given while offline is delivered by
    a reconnect one second later. *)
Lemma offline_message_delivered_witness :
  is_connected (new_client {| session_id := "s1"; device_id := "d"; device_name := "n";
                    cwd := "/"; session_name := None |}) = false /\
  reconnect_attempt (new_client {| session_id := "s1"; device_id := "d"; device_name := "n";
                    cwd := "/"; session_name := None |}) < Backoff.MAX_RECONNECT_ATTEMPTS /\
  0 <= 1000 < 0 + 270000 /\
  let '(c1, r1) := send_message (fun _ => [1]) (fun _ => true) 0 (new_client {| session_id := "s1"; device_id := "d"; device_name := "n";
                    cwd := "/"; session_name := None |})
                     OutgoingMessage.Pong in
  r1 = Done tt /\ sent c1 = sent (new_client {| session_id := "s1"; device_id := "d"; device_name := "n";
                    cwd := "/"; session_name := None |}) /\
  let '(c2, r2) := reconnect (fun _ => [1]) (fun _ => true) 1000 0 (Done tt) c1 in
  r2 = Done true /\ is_connected c2 = true /\
  exists older,
    sent c2 = sent (new_client {| session_id := "s1"; device_id := "d"; device_name := "n";
                    cwd := "/"; session_name := None |}) ++ older
      ++ [Message.Text [1]; Message.Text [1]].
Proof.
  split; [reflexivity|]. split; [reflexivity|]. split; [lia|].
  exact (offline_message_delivered (fun _ => [1]) (fun _ => true) 0 1000 0
           (new_client {| session_id := "s1"; device_id := "d"; device_name := "n";
                    cwd := "/"; session_name := None |}) OutgoingMessage.Pong eq_refl (fun _ => eq_refl)
           eq_refl ltac:(lia)).
Defined.


(** X7: [recv] never panics and touches neither the queue, the keys, the
    attempt counter nor the stream halves; it never marks the client
    connected.  Without a receiver it fails with "Not connected" and
    changes nothing.  The only frame it may send is a [Pong] echoing the
    payload of a received [Ping].  It yields a message only for a text or
    binary frame whose payload parses as one; the end of the stream, a
    stream error and a close frame leave the client disconnected. *)
Theorem recv_effects (from_json : bytes -> option IncomingMessage.t)
    (send_ok : Message.t -> bool) (next : option (Message.t + string))
    (c : WebSocketClient) :
  let '(c', r) := recv from_json send_ok next c in
  (forall p, r <> Panicked p) /\
  message_queue c' = message_queue c /\ keys_of c' = keys_of c /\
  reconnect_attempt c' = reconnect_attempt c /\
  sender_present c' = sender_present c /\ receiver_present c' = receiver_present c /\
  (is_connected c' = true -> is_connected c = true) /\
  (receiver_present c = false -> c' = c /\ r = Failed (WebSocketError "Not connected")) /\
  (sent c' = sent c \/
   exists data, next = Some (inl (Message.Ping data)) /\
                sent c' = sent c ++ [Message.Pong data]) /\
  (forall m, r = Done (Some m) ->
   exists t, (next = Some (inl (Message.Text t)) \/ next = Some (inl (Message.Binary t)))
             /\ from_json t = Some m) /\
  (receiver_present c = true ->
   next = None \/ (exists e, next = Some (inr e)) \/
   (exists f, next = Some (inl (Message.Close f))) ->
   is_connected c' = false).
Proof.
  unfold recv, handle_raw_message, set_connected, sink_send, set_sent, keys_of.
  destruct (receiver_present c) eqn:Hr; cbn [negb].
  2:{ repeat split; try discriminate; auto. }
  destruct next as [[m|e]|];
    [destruct m as [t|t|data|data|f|raw];
     [destruct (from_json t) eqn:Hj
     |destruct (Utf8.utf8_valid t); [destruct (from_json t) eqn:Hj|]
     |destruct (sender_present c) eqn:Hs; [destruct (send_ok (Message.Pong data))|]
     | | | ] | | ]; cbn.
  all: repeat split.
  all: first
    [ reflexivity | assumption | symmetry; assumption
    | intros; discriminate
    | intros H; exact H
    | left; reflexivity
    | right; eexists; split; reflexivity
    | intros m' Hm; injection Hm as <-; eexists;
      split; [first [left; reflexivity | right; reflexivity] | eassumption]
    | intros _ [H|[[? H]|[? H]]]; discriminate H
    | intros; reflexivity ].
Qed.

(** X8: [close] always returns [Ok] and leaves the client disconnected,
    with its keys and attempt counter unchanged.  While the client holds
    a sink whenever it is connected (as [do_connect] sets them together),
    it never adds to the queue.  A disconnected client sends no
    [SessionDetach], at most the close frame; a connected one whose sink
    accepts every frame sends [SessionDetach] for its session and then
    the close frame. *)
Theorem close_disconnects (to_json : OutgoingMessage.t -> bytes)
    (send_ok : Message.t -> bool) (now : Z) (c : WebSocketClient) :
  let '(c', r) := close to_json send_ok now c in
  r = Done tt /\ is_connected c' = false /\ keys_of c' = keys_of c /\
  reconnect_attempt c' = reconnect_attempt c /\
  ((is_connected c = true -> sender_present c = true) ->
   message_queue c' = message_queue c) /\
  (is_connected c = false ->
   sent c' = sent c \/ sent c' = sent c ++ [Message.Close None]) /\
  (is_connected c = true -> sender_present c = true -> (forall f, send_ok f = true) ->
   sent c' = sent c ++ [Message.Text (to_json
                          (OutgoingMessage.SessionDetach (session_id (cfg c))));
                        Message.Close None]).
Proof.
  unfold close, send_session_detach, send_message, sink_send, queue_message,
    set_connected, set_sent, set_queue, keys_of.
  destruct (is_connected c) eqn:Hc, (sender_present c) eqn:Hs; cbn [negb fst];
    [ destruct (send_ok (Message.Text _)) eqn:H1; cbn; rewrite ?Hs;
      destruct (send_ok (Message.Close None)) eqn:H2; cbn
    | cbn; rewrite ?Hs; cbn
    | destruct (send_ok (Message.Close None)) eqn:H2; cbn
    | cbn ].
  all: repeat split.
  all: first
    [ reflexivity | intros; discriminate
    | intros H; specialize (H eq_refl); discriminate
    | intros _ _ Hok; rewrite Hok in H1; discriminate
    | intros _ _ Hok; rewrite Hok in H2; discriminate
    | intros _ _ _; rewrite <- app_assoc; reflexivity
    | intros _; right; reflexivity | intros _; left; reflexivity ].
Qed.

End WsClientFacts.

Module Utf8Facts.
Import Utf8.

Lemma lor_add (a x k : Z) :
  0 <= k -> 0 <= x < 2 ^ k -> a mod 2 ^ k = 0 -> Z.lor a x = a + x.
Proof.
  intros Hk Hx Ha.
  assert (Hl : Z.land a x = 0).
  { apply Z.bits_inj'. intros n Hn. rewrite Z.land_spec, Z.bits_0.
    destruct (Z.lt_ge_cases n k) as [H|H].
    - rewrite <- (Z.mod_pow2_bits_low a k n H), Ha, Z.bits_0. reflexivity.
    - rewrite <- (Z.mod_small x (2 ^ k)) by lia.
      rewrite Z.mod_pow2_bits_high by lia. apply andb_false_r. }
  rewrite <- Z.lxor_lor by exact Hl. rewrite <- Z.add_nocarry_lxor by exact Hl.
  reflexivity.
Qed.

Lemma land63 (x : Z) : Z.land x 63 = x mod 64.
Proof. change 63 with (Z.ones 6). rewrite Z.land_ones by lia. reflexivity. Qed.

Lemma in_range_spec (lo hi b : Z) : in_range lo hi b = true <-> lo <= b <= hi.
Proof. unfold in_range. rewrite andb_true_iff, !Z.leb_le. reflexivity. Qed.

Ltac pow_consts :=
  repeat match goal with
  | |- context [2 ^ ?k] =>
      let v := eval vm_compute in (2 ^ k) in change (2 ^ k) with v
  end.

Ltac decide_tests :=
  repeat match goal with
  | |- context [in_range ?lo ?hi ?e] =>
      let H := fresh "Hr" in
      destruct (in_range lo hi e) eqn:H;
      [apply in_range_spec in H | rewrite <- not_true_iff_false, in_range_spec in H];
      try (exfalso; Z.to_euclidean_division_equations; lia)
  | |- context [Z.eqb ?a ?b] =>
      let H := fresh "He" in
      destruct (Z.eqb a b) eqn:H; [apply Z.eqb_eq in H | apply Z.eqb_neq in H];
      try (exfalso; Z.to_euclidean_division_equations; lia)
  end.

Lemma utf8_valid_encode_app (c : Z) (rest : bytes) :
  is_scalar_value c = true ->
  utf8_valid (utf8_encode c ++ rest) = utf8_valid rest.
Proof.
  unfold is_scalar_value. intros Hc.
  apply orb_true_iff in Hc.
  rewrite !andb_true_iff, !Z.leb_le, !Z.ltb_lt in Hc.
  unfold utf8_encode.
  rewrite !Z.shiftr_div_pow2, !land63 by lia.
  change (2 ^ 6) with 64. change (2 ^ 12) with 4096. change (2 ^ 18) with 262144.
  destruct (c <? 128) eqn:H1; [apply Z.ltb_lt in H1 | apply Z.ltb_ge in H1].
  - cbn [app utf8_valid]. decide_tests. reflexivity.
  - destruct (c <? 2048) eqn:H2; [apply Z.ltb_lt in H2 | apply Z.ltb_ge in H2].
    + rewrite (lor_add 192 (c / 64) 5), (lor_add 128 (c mod 64) 6) by (pow_consts; first [reflexivity | Z.to_euclidean_division_equations; lia]).
      cbn [app utf8_valid]. unfold is_cont. decide_tests. reflexivity.
    + destruct (c <? 65536) eqn:H3; [apply Z.ltb_lt in H3 | apply Z.ltb_ge in H3].
      * rewrite (lor_add 224 (c / 4096) 4), (lor_add 128 ((c / 64) mod 64) 6),
          (lor_add 128 (c mod 64) 6) by (pow_consts; first [reflexivity | Z.to_euclidean_division_equations; lia]).
        cbn [app utf8_valid]. unfold is_cont. decide_tests; reflexivity.
      * rewrite (lor_add 240 (c / 262144) 3), (lor_add 128 ((c / 4096) mod 64) 6),
          (lor_add 128 ((c / 64) mod 64) 6), (lor_add 128 (c mod 64) 6) by (pow_consts; first [reflexivity | Z.to_euclidean_division_equations; lia]).
        cbn [app utf8_valid]. unfold is_cont. decide_tests; reflexivity.
Qed.

Lemma utf8_valid_encode_str (s : list Z) :
  forallb is_scalar_value s = true -> utf8_valid (utf8_encode_str s) = true.
Proof.
  induction s as [|c s IH]; intros H; [reflexivity|].
  cbn [forallb] in H. apply andb_true_iff in H as [Hc Hs].
  unfold utf8_encode_str. cbn [flat_map]. rewrite utf8_valid_encode_app by exact Hc.
  apply IH, Hs.
Qed.

End Utf8Facts.

Module GuestFacts.
Import Guest.

Ltac destr_inner :=
  match goal with
  | |- context [match ?x with _ => _ end] =>
      lazymatch x with context [match _ with _ => _ end] => fail | _ => idtac end;
      let H := fresh "Hm" in destruct x eqn:H; cbv beta iota
  end.

Lemma decrypt_content_no_panic (P : Crypto.CryptoPrims) (sk : Crypto.SecretKey)
    (env : Crypto.EncryptedContent) (r : string) :
  Crypto.decrypt_content P sk env <> Panicked r.
Proof.
  unfold Crypto.decrypt_content, Crypto.base64_decode, Crypto.copy_from_slice,
    Crypto.aes_gcm_decrypt, negb.
  repeat destr_inner; discriminate.
Qed.

Lemma content_roundtrip_key (P : Crypto.CryptoPrims)
    (Haead : forall key n pt, length n = Crypto.NONCE_SIZE ->
       Crypto.aes256gcm_decrypt P key n (Crypto.aes256gcm_encrypt P key n pt) = Some pt)
    (Hlen : forall key n pt,
       length (Crypto.aes256gcm_encrypt P key n pt) = (length pt + Crypto.TAG_SIZE)%nat)
    (Hb64 : forall data, Crypto.b64_decode P (Crypto.b64_encode P data) = inl data)
    (sk : Crypto.SecretKey) (plaintext nonce_bytes : bytes)
    (Hnonce : length nonce_bytes = Crypto.NONCE_SIZE) :
  exists env,
    Crypto.encrypt_content P sk nonce_bytes plaintext = Done env /\
    Crypto.decrypt_content P sk env = Done plaintext.
Proof.
  set (c := Crypto.aes256gcm_encrypt P sk nonce_bytes plaintext).
  assert (Hc : length c = (length plaintext + Crypto.TAG_SIZE)%nat) by apply Hlen.
  assert (Ht : length (skipn (length plaintext) c) = Crypto.TAG_SIZE)
    by (rewrite length_skipn, Hc; unfold Crypto.TAG_SIZE; lia).
  unfold Crypto.encrypt_content, Crypto.aes_gcm_encrypt. fold c.
  replace (length c <? Crypto.TAG_SIZE)%nat with false
    by (symmetry; apply Nat.ltb_ge; rewrite Hc; lia).
  replace (length c - Crypto.TAG_SIZE)%nat with (length plaintext) by (rewrite Hc; lia).
  eexists; split; [reflexivity|].
  unfold Crypto.decrypt_content, Crypto.base64_decode, Crypto.base64_encode.
  cbn [Crypto.v Crypto.nonce Crypto.ciphertext Crypto.tag].
  rewrite !Hb64, Hnonce, Ht; cbn.
  unfold Crypto.copy_from_slice. rewrite Hnonce, Ht; cbn.
  unfold Crypto.aes_gcm_decrypt. rewrite firstn_skipn.
  unfold c. rewrite Haead by exact Hnonce. reflexivity.
Qed.

Lemma input_loop_keys (keys : list KeyCodec.KeyEvent) (buf : bytes) (rest : list Event) :
  Forall (fun k =>
    (KeyCodec.contains (KeyCodec.modifiers k) KeyCodec.CONTROL = false \/
     KeyCodec.code k <> KeyCodec.Char 113) /\
    KeyCodec.code k <> KeyCodec.Enter /\
    Utf8.utf8_valid (KeyCodec.guest_key_event_to_bytes k) = true) keys ->
  input_loop buf (map Key keys ++ rest)
  = input_loop (buf ++ flat_map KeyCodec.guest_key_event_to_bytes keys) rest.
Proof.
  revert buf. induction keys as [|k keys IH]; intros buf Hk.
  - cbn. rewrite app_nil_r. reflexivity.
  - inversion Hk as [|? ? [Hq [He Hv]] Hks]; subst.
    cbn [map app input_loop flat_map]. unfold handle_input_event.
    replace (KeyCodec.contains (KeyCodec.modifiers k) KeyCodec.CONTROL
             && match KeyCodec.code k with
                | KeyCodec.Char ch => ch =? 113 | _ => false end) with false
      by (destruct Hq as [Hq|Hq];
          [rewrite Hq; reflexivity
          |destruct (KeyCodec.code k); try (symmetry; apply andb_false_r);
           match goal with |- context [?a =? 113] =>
             destruct (a =? 113) eqn:E end;
           [apply Z.eqb_eq in E; subst; congruence
           |symmetry; apply andb_false_r]]).
    cbv iota.
    destruct (KeyCodec.guest_key_event_to_bytes k) as [|b bs] eqn:Hb.
    + rewrite IH by exact Hks. rewrite app_nil_l. reflexivity.
    + destruct (KeyCodec.code k) eqn:Hc; try congruence;
        rewrite Hv, IH by exact Hks; rewrite app_assoc; reflexivity.
Qed.

Lemma replay_all_written (P : Crypto.CryptoPrims) (stdout_ok : bytes -> bool)
    (c : GuestClient) (entries : list HistoryEntry.t) :
  let ds := flat_map (fun e =>
              match decrypt P c (HistoryEntry.encrypted e) with
              | Done d => [d] | _ => [] end) entries in
  (forallb stdout_ok ds = true ->
   replay_history P stdout_ok c entries = (ds, HandleOk true)) /\
  (forall pre d post, ds = pre ++ d :: post -> forallb stdout_ok pre = true ->
   stdout_ok d = false -> replay_history P stdout_ok c entries = (pre, IoFailed)).
Proof.
  induction entries as [|e entries IH]; cbn [flat_map replay_history].
  - split; [reflexivity|]. intros pre d post H. destruct pre; discriminate.
  - destruct (decrypt P c (HistoryEntry.encrypted e)) as [d0|err|r] eqn:Hd.
    + destruct IH as [IH1 IH2]. cbn [app]. unfold write_then. split.
      * cbn [forallb]. intros H. apply andb_true_iff in H as [H0 H].
        rewrite H0, (IH1 H). reflexivity.
      * intros pre d post Hds Hpre Hdk. destruct pre as [|p pre]; cbn [app] in Hds.
        -- injection Hds as <- _. rewrite Hdk. reflexivity.
        -- injection Hds as <- Hds. cbn [forallb] in Hpre.
           apply andb_true_iff in Hpre as [Hp Hpre].
           rewrite Hp, (IH2 pre d post Hds Hpre Hdk). reflexivity.
    + exact IH.
    + exfalso. eapply decrypt_content_no_panic. exact Hd.
Qed.

(** X9: a prompt the guest types reaches the host intact.  A guest that
    connected with the MEK and session id of a host sends one
    [EncryptedPrompt] frame for the text, and the host's [decrypt_prompt]
    on that envelope returns the text's bytes, whether or not the host has
    cached its session key.  The AEAD and base64 are assumed correct, the
    nonce is 12 bytes, the text is a sequence of Unicode scalar values and
    the sink accepts the frame. *)
Theorem guest_prompt_reaches_host (P : Crypto.CryptoPrims)
    (Haead : forall key n pt, length n = Crypto.NONCE_SIZE ->
       Crypto.aes256gcm_decrypt P key n (Crypto.aes256gcm_encrypt P key n pt) = Some pt)
    (Hlen : forall key n pt,
       length (Crypto.aes256gcm_encrypt P key n pt) = (length pt + Crypto.TAG_SIZE)%nat)
    (Hb64 : forall data, Crypto.b64_decode P (Crypto.b64_encode P data) = inl data)
    (to_json : GuestOutgoingMessage.t -> bytes) (send_ok : WsClient.Message.t -> bool)
    (Hsend : forall f, send_ok f = true)
    (m : Crypto.SecretKey) (sid : string) (host : WsClient.WebSocketClient)
    (Hmek : WsClient.mek host = Some m)
    (Hsid : WsClient.session_id (WsClient.cfg host) = sid)
    (Hhost : WsClient.session_key_consistent P host)
    (text : list Z) (Htext : forallb Utf8.is_scalar_value text = true)
    (nonce_bytes : bytes) (Hnonce : length nonce_bytes = Crypto.NONCE_SIZE)
    (timestamp : string) :
  exists g,
    connect P (Done tt) sid m = Done g /\
    exists enc,
      send_prompt P to_json send_ok nonce_bytes timestamp g (utf8_encode_str text)
      = ({| sender_present := true; receiver_present := true; session_id := sid;
            session_key := session_key g;
            sent := [WsClient.Message.Text
                       (to_json (GuestOutgoingMessage.EncryptedPrompt sid enc timestamp))] |},
         Done tt) /\
      snd (WsClient.decrypt_prompt P host enc) = Done (utf8_encode_str text).
Proof.
  eexists; split; [reflexivity|].
  destruct (content_roundtrip_key P Haead Hlen Hb64 (Crypto.derive_session_key P m sid)
              (utf8_encode_str text) nonce_bytes Hnonce) as [env [He Hd]].
  exists env. split.
  - unfold send_prompt, send_message. cbn [session_key session_id sender_present sent].
    rewrite He, Hsend. reflexivity.
  - pose proof (WsClientFacts.get_key_consistent P host Hhost) as Hk.
    unfold WsClient.decrypt_prompt.
    destruct (WsClient.get_or_derive_session_key P host) as [c1 sk].
    destruct Hk as [_ [_ [_ ->]]]. rewrite Hmek, Hsid. cbn.
    rewrite Hd, Utf8Facts.utf8_valid_encode_str by exact Htext. reflexivity.
Qed.

(** X9 on the test instance: a host that called [set_mek] decrypts the
    prompt "hi" sent by the guest. *)
Lemma guest_prompt_reaches_host_witness :
  exists g,
    connect CryptoTestInstance.toy_prims (Done tt) "s1" (repeat 7 32) = Done g /\
    exists enc,
      send_prompt CryptoTestInstance.toy_prims (fun _ => [1]) (fun _ => true)
        (repeat 0 12) "t" g (utf8_encode_str [104; 105])
      = ({| sender_present := true; receiver_present := true; session_id := "s1";
            session_key := session_key g;
            sent := [WsClient.Message.Text [1]] |}, Done tt) /\
      snd (WsClient.decrypt_prompt CryptoTestInstance.toy_prims
             (WsClient.set_mek
                (WsClient.new_client
                   {| WsClient.session_id := "s1"; WsClient.device_id := "d";
                      WsClient.device_name := "n"; WsClient.cwd := "/";
                      WsClient.session_name := None |}) (repeat 7 32)) enc)
      = Done (utf8_encode_str [104; 105]).
Proof.
  apply (guest_prompt_reaches_host CryptoTestInstance.toy_prims
           (fun key n pt _ => CryptoTestFacts.toy_open_seal key n pt)
           CryptoTestFacts.toy_seal_length CryptoTestFacts.toy_decode_encode
           (fun _ => [1]) (fun _ => true) (fun _ => eq_refl)).
  - reflexivity.
  - reflexivity.
  - intros k Hk. discriminate Hk.
  - reflexivity.
  - reflexivity.
Defined.

(** X10: replaying a history batch writes to stdout, in order, the
    plaintext of every entry that decrypts and silently skips the entries
    that do not; it never panics.  When every write succeeds the loop goes
    on; when a write fails, nothing after it is written and the handler
    returns the I/O error. *)
Theorem history_replay_skips_undecryptable (P : Crypto.CryptoPrims)
    (stdout_ok : bytes -> bool) (c : GuestClient) (sid : string)
    (entries : list HistoryEntry.t) :
  let ds := flat_map (fun e =>
              match decrypt P c (HistoryEntry.encrypted e) with
              | Done d => [d] | _ => [] end) entries in
  let res := handle_incoming_message P stdout_ok c
               (GuestIncomingMessage.History
                  {| HistoryBatch.session_id := sid; HistoryBatch.entries := entries |}) in
  (forallb stdout_ok ds = true -> res = (ds, HandleOk true)) /\
  (forall pre d post, ds = pre ++ d :: post -> forallb stdout_ok pre = true ->
   stdout_ok d = false -> res = (pre, IoFailed)).
Proof. apply replay_all_written. Qed.

(** X11: [handle_incoming_message] never panics and asks the event loop
    to stop only for [SessionDetached]; for that message, when the
    notification can be written, it writes exactly the amber
    "[klaas] Session detached" line (with ": reason" when a reason is
    given) and returns [Ok(false)]. *)
Theorem handle_incoming_stops_only_on_detach (P : Crypto.CryptoPrims)
    (stdout_ok : bytes -> bool) (c : GuestClient) (msg : GuestIncomingMessage.t) :
  (forall r, snd (handle_incoming_message P stdout_ok c msg) <> HandlePanicked r) /\
  (snd (handle_incoming_message P stdout_ok c msg) = HandleOk false ->
   exists sid reason, msg = GuestIncomingMessage.SessionDetached sid reason) /\
  (forall sid reason,
     let text := notification (chars "Session detached" ++
                   match reason with Some r => chars ": " ++ r | None => [] end) in
     stdout_ok text = true ->
     handle_incoming_message P stdout_ok c (GuestIncomingMessage.SessionDetached sid reason)
     = ([text], HandleOk false)).
Proof.
  split; [|split].
  - intros r. destruct msg; cbn [handle_incoming_message];
      unfold display_notification_then, write_then;
      try (destruct (stdout_ok _); discriminate).
    + destruct (replay_all_written P stdout_ok c (HistoryBatch.entries batch)) as [H1 H2].
      set (ds := flat_map _ _) in *.
      destruct (forallb stdout_ok ds) eqn:Hall.
      * rewrite (H1 eq_refl). discriminate.
      * assert (Hex : exists pre d post, ds = pre ++ d :: post /\
                  forallb stdout_ok pre = true /\ stdout_ok d = false).
        { clear H1 H2. induction ds as [|x xs IH]; [discriminate|].
          cbn [forallb] in Hall. destruct (stdout_ok x) eqn:Hx.
          - destruct (IH Hall) as [pre [d [post [E [F G]]]]].
            exists (x :: pre), d, post. rewrite E. cbn. rewrite Hx. auto.
          - exists [], x, xs. auto. }
        destruct Hex as [pre [d [post [E [F G]]]]].
        rewrite (H2 pre d post E F G). discriminate.
    + destruct (decrypt P c encrypted) eqn:Hd.
      * destruct (stdout_ok _); discriminate.
      * discriminate.
      * exfalso. eapply decrypt_content_no_panic. exact Hd.
    + discriminate.
  - destruct msg; cbn [handle_incoming_message];
      unfold display_notification_then, write_then; intros H;
      try (destruct (stdout_ok _); discriminate H).
    + destruct (replay_all_written P stdout_ok c (HistoryBatch.entries batch)) as [H1 H2].
      exfalso. set (ds := flat_map _ _) in *.
      destruct (forallb stdout_ok ds) eqn:Hall.
      * rewrite (H1 eq_refl) in H. discriminate.
      * assert (Hex : exists pre d post, ds = pre ++ d :: post /\
                  forallb stdout_ok pre = true /\ stdout_ok d = false).
        { clear H1 H2 H. induction ds as [|x xs IH]; [discriminate|].
          cbn [forallb] in Hall. destruct (stdout_ok x) eqn:Hx.
          - destruct (IH Hall) as [pre [d [post [E [F G]]]]].
            exists (x :: pre), d, post. rewrite E. cbn. rewrite Hx. auto.
          - exists [], x, xs. auto. }
        destruct Hex as [pre [d [post [E [F G]]]]].
        rewrite (H2 pre d post E F G) in H. discriminate.
    + destruct (decrypt P c encrypted); [destruct (stdout_ok _)|..]; discriminate H.
    + eauto.
    + discriminate H.
  - intros sid reason text Ht. cbn [handle_incoming_message].
    unfold display_notification_then, write_then. fold text. rewrite Ht. reflexivity.
Qed.

(** X12: the guest's input line has no editing.  Keys other than Enter
    and Ctrl+Q whose bytes are valid UTF-8 are appended to the buffer as
    [key_event_to_bytes] encodes them (Backspace as 0x7F, arrows as
    escape sequences, keys with no encoding dropped), and the next Enter
    sends exactly those bytes followed by a newline as one prompt and
    empties the buffer. *)
Theorem guest_input_no_line_editing (keys : list KeyCodec.KeyEvent)
    (enter : KeyCodec.KeyEvent)
    (Hkeys : Forall (fun k =>
       (KeyCodec.contains (KeyCodec.modifiers k) KeyCodec.CONTROL = false \/
        KeyCodec.code k <> KeyCodec.Char 113) /\
       KeyCodec.code k <> KeyCodec.Enter /\
       Utf8.utf8_valid (KeyCodec.guest_key_event_to_bytes k) = true) keys)
    (Henter : KeyCodec.code enter = KeyCodec.Enter)
    (Hne : flat_map KeyCodec.guest_key_event_to_bytes keys <> []) :
  input_loop [] (map Key keys ++ [Key enter])
  = ([flat_map KeyCodec.guest_key_event_to_bytes keys ++ [10]], [], false).
Proof.
  rewrite input_loop_keys by exact Hkeys. rewrite app_nil_l.
  cbn [input_loop]. unfold handle_input_event.
  assert (Hb : KeyCodec.guest_key_event_to_bytes enter = [13])
    by (unfold KeyCodec.guest_key_event_to_bytes; rewrite Henter; reflexivity).
  rewrite Hb, Henter, andb_false_r.
  destruct (flat_map KeyCodec.guest_key_event_to_bytes keys) as [|b bs];
    [congruence|reflexivity].
Qed.

(** X12 on "a", Backspace, "b", Left, Enter: the prompt sent is
    "a\x7fb\x1b[D\n". *)
Lemma guest_input_no_line_editing_witness :
  input_loop []
    (map Key [{| KeyCodec.code := KeyCodec.Char 97; KeyCodec.modifiers := 0;
                 KeyCodec.kind := 0; KeyCodec.state := 0 |};
              {| KeyCodec.code := KeyCodec.Backspace; KeyCodec.modifiers := 0;
                 KeyCodec.kind := 0; KeyCodec.state := 0 |};
              {| KeyCodec.code := KeyCodec.Char 98; KeyCodec.modifiers := 0;
                 KeyCodec.kind := 0; KeyCodec.state := 0 |};
              {| KeyCodec.code := KeyCodec.Left; KeyCodec.modifiers := 0;
                 KeyCodec.kind := 0; KeyCodec.state := 0 |}]
     ++ [Key {| KeyCodec.code := KeyCodec.Enter; KeyCodec.modifiers := 0;
                KeyCodec.kind := 0; KeyCodec.state := 0 |}])
  = ([[97; 127; 98; 27; 91; 68; 10]], [], false).
Proof.
  apply guest_input_no_line_editing.
  - repeat constructor; try (left; reflexivity); discriminate.
  - reflexivity.
  - discriminate.
Defined.

End GuestFacts.

Module InterceptorIoFacts.
Import Interceptor.

Definition plain_command_byte (b : Z) : Prop :=
  b < 128 /\ b <> 10 /\ b <> 13 /\ b <> 127 /\ b <> 8.

Lemma utf8_encode_str_ascii (s : bytes) :
  Forall (fun b => b < 128) s -> utf8_encode_str s = s.
Proof.
  induction s as [|b s IH]; intros H; [reflexivity|].
  inversion H as [|? ? Hb Hs]; subst.
  unfold utf8_encode_str in *. cbn [flat_map]. rewrite IH by exact Hs.
  unfold utf8_encode. replace (b <? 128) with true by (symmetry; apply Z.ltb_lt; exact Hb).
  reflexivity.
Qed.

Lemma plain_ascii (s : bytes) :
  Forall plain_command_byte s -> Forall (fun b => b < 128) s.
Proof.
  intros H. induction H as [|b s [Hb _] _ IH]; constructor; assumption.
Qed.

Lemma reading_accumulates (now : Z) (s rest : bytes) (st : Interceptor) :
  state st = ReadingCommand -> Forall plain_command_byte s ->
  process now st (s ++ rest)
  = process now {| state := ReadingCommand; buffer := buffer st ++ s;
                   at_line_start := at_line_start st;
                   command_start := command_start st |} rest.
Proof.
  revert st. induction s as [|b s IH]; intros st Hst Hs.
  - destruct st as [st0 buf ls cs]. cbn in Hst. subst st0.
    cbn [app]. rewrite app_nil_r. reflexivity.
  - inversion Hs as [|? ? (Hb & H10 & H13 & H127 & H8) Hs']; subst.
    cbn [app process]. unfold process_byte. rewrite Hst. unfold process_reading.
    replace ((b =? 10) || (b =? 13)) with false
      by (symmetry; apply orb_false_iff; split; apply Z.eqb_neq; assumption).
    replace ((b =? 127) || (b =? 8)) with false
      by (symmetry; apply orb_false_iff; split; apply Z.eqb_neq; assumption).
    rewrite IH; [| exact Hst | exact Hs']. cbn [buffer at_line_start command_start].
    rewrite <- app_assoc. cbn [app].
    destruct (process now _ rest) as [[st2 fwd] cmds]. reflexivity.
Qed.

Lemma process_normal_slash (now : Z) (st : Interceptor) (rest : bytes) :
  state st = Normal -> at_line_start st = true ->
  process now st (47 :: rest)
  = process now {| state := ReadingCommand; buffer := []; at_line_start := true;
                   command_start := Some now |} rest.
Proof.
  intros Hst Hls. cbn [process]. unfold process_byte. rewrite Hst.
  unfold process_normal. rewrite Hls. cbn.
  destruct (process now _ rest) as [[st2 fwd] cmds]. reflexivity.
Qed.

(** X14: in normal mode the interceptor is transparent to input that
    contains no '/': every byte is forwarded to the PTY unchanged and in
    order, no command is emitted, and the interceptor stays in normal
    mode with its buffer untouched. *)
Theorem process_without_slash_forwards (now : Z) (st : Interceptor) (input : bytes)
    (Hst : state st = Normal) (Hin : ~ In 47 input) :
  let '(st', fwd, cmds) := process now st input in
  fwd = input /\ cmds = [] /\ state st' = Normal /\ buffer st' = buffer st.
Proof.
  revert st Hst. induction input as [|b input IH]; intros st Hst.
  - cbn. auto.
  - cbn [process]. unfold process_byte. rewrite Hst. unfold process_normal.
    assert (Hb : b <> 47) by (intros ->; apply Hin; left; reflexivity).
    assert (Hin' : ~ In 47 input) by (intros H; apply Hin; right; exact H).
    replace (b =? 47) with false by (symmetry; apply Z.eqb_neq; exact Hb).
    cbn [andb].
    destruct ((b =? 10) || (b =? 13)).
    + specialize (IH Hin' {| state := state st; buffer := buffer st; at_line_start := true;
                             command_start := command_start st |} Hst).
      destruct (process now _ input) as [[st2 fwd] cmds].
      destruct IH as (-> & -> & H1 & H2). auto.
    + specialize (IH Hin' {| state := state st; buffer := buffer st; at_line_start := false;
                             command_start := command_start st |} Hst).
      destruct (process now _ input) as [[st2 fwd] cmds].
      destruct IH as (-> & -> & H1 & H2). auto.
Qed.

(** X14 on "ls -la\r" from a fresh interceptor. *)
Lemma process_without_slash_forwards_witness :
  state new_interceptor = Normal /\ ~ In 47 [108; 115; 32; 45; 108; 97; 13] /\
  let '(st', fwd, cmds) := process 0 new_interceptor [108; 115; 32; 45; 108; 97; 13] in
  fwd = [108; 115; 32; 45; 108; 97; 13] /\ cmds = [] /\ state st' = Normal /\
  buffer st' = buffer new_interceptor.
Proof.
  assert (H : ~ In 47 [108; 115; 32; 45; 108; 97; 13])
    by (cbn; intros H; repeat destruct H as [H|H]; discriminate H || exact H).
  split; [reflexivity|]. split; [exact H|].
  exact (process_without_slash_forwards 0 new_interceptor _ eq_refl H).
Defined.

(** X15: a line typed at a line start as '/', then ASCII bytes other
    than newline and backspace, then Enter (LF or CR) is either consumed
    whole as the command [match_command] recognises (nothing forwarded,
    that one command emitted) or, when it is not a command, forwarded
    byte for byte, Enter included; either way the interceptor is back in
    normal mode at a line start. *)
Theorem slash_line_command_or_forwarded (now : Z) (st : Interceptor) (s : bytes) (e : Z)
    (Hst : state st = Normal) (Hls : at_line_start st = true)
    (Hs : Forall plain_command_byte s) (He : e = 10 \/ e = 13) :
  let st1 := {| state := Normal; buffer := s; at_line_start := true;
                command_start := None |} in
  process now st (47 :: s ++ [e])
  = match match_command st1 with
    | Some cmd => (st1, [], [cmd])
    | None => ({| state := Normal; buffer := []; at_line_start := true;
                  command_start := None |}, 47 :: s ++ [e], [])
    end.
Proof.
  cbv zeta. rewrite process_normal_slash by assumption.
  rewrite reading_accumulates by (reflexivity || assumption).
  cbn [buffer at_line_start command_start app process process_byte state].
  unfold process_reading.
  replace ((e =? 10) || (e =? 13)) with true
    by (destruct He as [-> | ->]; reflexivity).
  cbn [buffer].
  destruct (match_command _); [reflexivity|].
  rewrite utf8_encode_str_ascii by (apply plain_ascii; exact Hs).
  rewrite app_nil_r. reflexivity.
Qed.

(** X15 on "/nexo status\r" (a command) from a fresh interceptor. *)
Lemma slash_line_command_or_forwarded_witness :
  process 0 new_interceptor (47 :: chars "nexo status" ++ [13])
  = (let st1 := {| state := Normal; buffer := chars "nexo status"; at_line_start := true;
                   command_start := None |} in
     match match_command st1 with
     | Some cmd => (st1, [], [cmd])
     | None => ({| state := Normal; buffer := []; at_line_start := true;
                   command_start := None |}, 47 :: chars "nexo status" ++ [13], [])
     end).
Proof.
  apply slash_line_command_or_forwarded.
  - reflexivity.
  - reflexivity.
  - cbn. repeat constructor; lia.
  - right; reflexivity.
Defined.

(** X16: a '/'-line left unfinished is buffered, not forwarded; once
    more than the command timeout has elapsed since the '/',
    [check_timeout] hands back '/' and the typed ASCII bytes unchanged
    and returns to normal mode (not at a line start); before that it
    returns nothing and changes nothing. *)
Theorem unfinished_command_flushed_after_timeout (timeout now : Z) (st : Interceptor)
    (s : bytes) (Hst : state st = Normal) (Hls : at_line_start st = true)
    (Hs : Forall plain_command_byte s) :
  let '(st1, fwd, cmds) := process now st (47 :: s) in
  fwd = [] /\ cmds = [] /\
  (forall now', timeout < now' - now ->
   check_timeout timeout now' st1
   = ({| state := Normal; buffer := []; at_line_start := false; command_start := None |},
      Some (47 :: s))) /\
  (forall now', now' - now <= timeout -> check_timeout timeout now' st1 = (st1, None)).
Proof.
  rewrite process_normal_slash by assumption.
  pose proof (reading_accumulates now s []
                {| state := ReadingCommand; buffer := []; at_line_start := true;
                   command_start := Some now |} eq_refl Hs) as R.
  rewrite app_nil_r in R. rewrite R.
  cbn [buffer at_line_start command_start app process].
  split; [reflexivity|]. split; [reflexivity|]. split.
  - intros now' Hlt. unfold check_timeout. cbn [state command_start].
    replace (timeout <? now' - now) with true by (symmetry; apply Z.ltb_lt; exact Hlt).
    unfold flush_buffer. cbn [buffer].
    rewrite utf8_encode_str_ascii by (apply plain_ascii; exact Hs). reflexivity.
  - intros now' Hle. unfold check_timeout. cbn [state command_start].
    replace (timeout <? now' - now) with false by (symmetry; apply Z.ltb_ge; exact Hle).
    reflexivity.
Qed.

(** X16 on "/nex" with a 2 s timeout. *)
Lemma unfinished_command_flushed_after_timeout_witness :
  let '(st1, fwd, cmds) := process 0 new_interceptor (47 :: chars "nex") in
  fwd = [] /\ cmds = [] /\
  (forall now', 2000 < now' - 0 ->
   check_timeout 2000 now' st1
   = ({| state := Normal; buffer := []; at_line_start := false; command_start := None |},
      Some (47 :: chars "nex"))) /\
  (forall now', now' - 0 <= 2000 -> check_timeout 2000 now' st1 = (st1, None)).
Proof.
  apply unfinished_command_flushed_after_timeout.
  - reflexivity.
  - reflexivity.
  - cbn. repeat constructor; lia.
Defined.

End InterceptorIoFacts.

Module E2eeFacts.
Import Guest.

(** X13: output the host CLI sends reaches a guest intact.  After
    [connect_websocket] succeeds (with a sink that accepts every frame)
    E2EE is on, and [send_output] sends exactly one [EncryptedOutput]
    frame for the data; a guest that connected to the same session with
    the same MEK writes exactly that data to stdout when it receives
    the envelope.  The AEAD and base64 are assumed correct and the
    nonce is 12 bytes. *)
Theorem host_output_reaches_guest (P : Crypto.CryptoPrims)
    (Haead : forall key n pt, length n = Crypto.NONCE_SIZE ->
       Crypto.aes256gcm_decrypt P key n (Crypto.aes256gcm_encrypt P key n pt) = Some pt)
    (Hlen : forall key n pt,
       length (Crypto.aes256gcm_encrypt P key n pt) = (length pt + Crypto.TAG_SIZE)%nat)
    (Hb64 : forall data, Crypto.b64_decode P (Crypto.b64_encode P data) = inl data)
    (to_json : WsClient.OutgoingMessage.t -> bytes) (send_ok : WsClient.Message.t -> bool)
    (Hsend : forall f, send_ok f = true)
    (now now' : Z) (config : WsClient.Config) (m : Crypto.SecretKey)
    (nonce_bytes : bytes) (Hnonce : length nonce_bytes = Crypto.NONCE_SIZE)
    (timestamp : string) (data : bytes)
    (stdout_ok : bytes -> bool) (Hout : stdout_ok data = true) :
  exists c0,
    WsClient.connect_websocket to_json send_ok now (Done tt) config m = Some c0 /\
    WsClient.is_e2ee_enabled c0 = true /\
    exists enc,
      let '(c1, r) := WsClient.send_output P to_json send_ok now' nonce_bytes timestamp c0 data in
      r = Done tt /\
      WsClient.sent c1 = WsClient.sent c0 ++
        [WsClient.Message.Text (to_json (WsClient.OutgoingMessage.EncryptedOutput
                                           (WsClient.session_id config) enc timestamp))] /\
      exists g,
        connect P (Done tt) (WsClient.session_id config) m = Done g /\
        forall ts, handle_incoming_message P stdout_ok g
          (GuestIncomingMessage.EncryptedOutput (WsClient.session_id config) enc ts)
        = ([data], HandleOk true).
Proof.
  eexists; split.
  { unfold WsClient.connect_websocket, WsClient.connect, WsClient.do_connect,
      WsClient.drain_message_queue, WsClient.send_session_attach, WsClient.send_message,
      WsClient.sink_send.
    cbn. rewrite Hsend. reflexivity. }
  split; [reflexivity|].
  set (sk := Crypto.derive_session_key P m (WsClient.session_id config)).
  destruct (GuestFacts.content_roundtrip_key P Haead Hlen Hb64 sk data nonce_bytes Hnonce)
    as [env [He Hd]].
  exists env.
  unfold WsClient.send_output, WsClient.get_or_derive_session_key.
  cbn [WsClient.session_key WsClient.mek WsClient.set_mek WsClient.set_mek_field
       WsClient.set_session_key WsClient.cfg].
  unfold WsClient.set_sent, WsClient.set_queue, WsClient.install_stream,
    WsClient.new_client.
  cbn [WsClient.cfg].
  fold sk. rewrite He.
  unfold WsClient.send_message, WsClient.sink_send. cbn. rewrite Hsend. cbn.
  split; [reflexivity|]. split; [reflexivity|].
  eexists; split; [reflexivity|].
  intros ts. cbn [handle_incoming_message]. unfold decrypt. cbn [session_key].
  fold sk. rewrite Hd. unfold write_then. rewrite Hout. reflexivity.
Qed.

(** X13 on the test instance: "hi" sent by a host for session "s1". *)
Lemma host_output_reaches_guest_witness :
  exists c0,
    WsClient.connect_websocket (fun _ => [1]) (fun _ => true) 0 (Done tt) {| WsClient.session_id := "s1"; WsClient.device_id := "d";
                     WsClient.device_name := "n"; WsClient.cwd := "/";
                     WsClient.session_name := None |}
      (repeat 7 32) = Some c0 /\
    WsClient.is_e2ee_enabled c0 = true /\
    exists enc,
      let '(c1, r) := WsClient.send_output CryptoTestInstance.toy_prims (fun _ => [1])
                        (fun _ => true) 0 (repeat 0 12) "t" c0 [104; 105] in
      r = Done tt /\
      WsClient.sent c1 = WsClient.sent c0 ++ [WsClient.Message.Text [1]] /\
      exists g,
        connect CryptoTestInstance.toy_prims (Done tt) "s1" (repeat 7 32) = Done g /\
        forall ts, handle_incoming_message CryptoTestInstance.toy_prims (fun _ => true) g
          (GuestIncomingMessage.EncryptedOutput "s1" enc ts)
        = ([[104; 105]], HandleOk true).
Proof.
  exact (host_output_reaches_guest CryptoTestInstance.toy_prims
           (fun key n pt _ => CryptoTestFacts.toy_open_seal key n pt)
           CryptoTestFacts.toy_seal_length CryptoTestFacts.toy_decode_encode
           (fun _ => [1]) (fun _ => true) (fun _ => eq_refl) 0 0 {| WsClient.session_id := "s1"; WsClient.device_id := "d";
                     WsClient.device_name := "n"; WsClient.cwd := "/";
                     WsClient.session_name := None |}
           (repeat 7 32) (repeat 0 12) eq_refl "t" [104; 105] (fun _ => true) eq_refl).
Defined.


End E2eeFacts.

Module PairingFacts.
Import Pairing.

Ltac destr_inner :=
  match goal with
  | |- context [match ?x with _ => _ end] =>
      lazymatch x with context [match _ with _ => _ end] => fail | _ => idtac end;
      let H := fresh "Hm" in destruct x eqn:H; cbv beta iota
  end.

Lemma base64_decode_no_panic (P : Crypto.CryptoPrims) (s : string) (r : string) :
  Crypto.base64_decode P s <> Panicked r.
Proof. unfold Crypto.base64_decode. destruct (Crypto.b64_decode P s); discriminate. Qed.

Lemma pairing_envelope_safe (P : Crypto.CryptoPrims) (K : CryptoMek.KdfPrims)
    (private_key dash_pk : bytes) (em : CryptoMek.EncryptedMEK) :
  (forall r, CryptoMek.decrypt_mek_from_pairing P K private_key dash_pk em <> Panicked r) /\
  (forall mek, CryptoMek.decrypt_mek_from_pairing P K private_key dash_pk em = Done mek ->
   length mek = Crypto.KEY_SIZE).
Proof.
  unfold CryptoMek.decrypt_mek_from_pairing, CryptoMek.compute_ecdh_shared_key,
    Crypto.base64_decode, Crypto.copy_from_slice, Crypto.aes_gcm_decrypt, negb.
  split.
  - intros r. repeat destr_inner; discriminate.
  - intros mek. repeat destr_inner; try discriminate.
    intros H; injection H as <-. apply Nat.eqb_eq. assumption.
Qed.

Lemma cli_error_string_head (e : CliError) :
  cli_error_to_string e <> "Private key already consumed"%string.
Proof. destruct e; discriminate. Qed.

Lemma poll_step_inv (P : Crypto.CryptoPrims) (K : CryptoMek.KdfPrims) (expires_in : Z)
    (pk : bytes) (st : PairingState) (tick : PairingTick) :
  private_key_opt st = Some pk ->
  match poll_step P K expires_in st tick with
  | PContinue st' => private_key_opt st' = Some pk
  | PStop r =>
      (forall reason, r <> PairPanicked reason) /\
      r <> PairErr (CryptoError "Private key already consumed") /\
      (forall mek, r = PairOk mek ->
       length mek = Crypto.KEY_SIZE /\
       exists dpk em dash_pk,
         ptick_reply tick = StatusData "completed" (Some dpk) (Some em) /\
         Crypto.base64_decode P dpk = Done dash_pk /\
         CryptoMek.decrypt_mek_from_pairing P K pk dash_pk em = Done mek)
  end.
Proof.
  intros Hpk. unfold poll_step. cbv zeta. rewrite Hpk.
  repeat destr_inner;
  match goal with
  | |- private_key_opt _ = Some _ => reflexivity
  | H : Crypto.base64_decode _ _ = Panicked _ |- _ =>
      exfalso; exact (base64_decode_no_panic _ _ _ H)
  | H : CryptoMek.decrypt_mek_from_pairing _ _ _ _ _ = Panicked _ |- _ =>
      exfalso; exact (proj1 (pairing_envelope_safe _ _ _ _ _) _ H)
  | H : CryptoMek.decrypt_mek_from_pairing _ _ _ _ _ = Done _,
    Hs : String.eqb _ "completed" = true |- _ =>
      apply String.eqb_eq in Hs; subst;
      split; [intros ? ?; discriminate|]; split; [discriminate|];
      intros mek Hr; injection Hr as <-;
      split; [exact (proj2 (pairing_envelope_safe _ _ _ _ _) _ H)|];
      do 3 eexists; split; [reflexivity|]; split; eassumption
  | |- _ =>
      split; [intros ? ?; discriminate|];
      split; [first [discriminate | intros Hc; injection Hc; apply cli_error_string_head]|];
      intros ? ?; discriminate
  end.
Qed.

Lemma pairing_loop_inv (P : Crypto.CryptoPrims) (K : CryptoMek.KdfPrims) (expires_in : Z)
    (pk : bytes) (ticks : list PairingTick) (st : PairingState) :
  private_key_opt st = Some pk ->
  let r := pairing_loop P K expires_in st ticks in
  (forall reason, r <> Some (PairPanicked reason)) /\
  r <> Some (PairErr (CryptoError "Private key already consumed")) /\
  (forall mek, r = Some (PairOk mek) ->
   length mek = Crypto.KEY_SIZE /\
   exists tick dpk em dash_pk,
     In tick ticks /\
     ptick_reply tick = StatusData "completed" (Some dpk) (Some em) /\
     Crypto.base64_decode P dpk = Done dash_pk /\
     CryptoMek.decrypt_mek_from_pairing P K pk dash_pk em = Done mek).
Proof.
  revert st. induction ticks as [|t rest IH]; intros st Hpk; cbn zeta.
  - cbn. split; [discriminate|]. split; [discriminate|]. discriminate.
  - cbn [pairing_loop].
    pose proof (poll_step_inv P K expires_in pk st t Hpk) as Hs.
    destruct (poll_step P K expires_in st t) as [st'|r].
    + destruct (IH st' Hs) as (A & B & C). split; [exact A|]. split; [exact B|].
      intros mek Hm. destruct (C mek Hm) as (L & tick & dpk & em & dash_pk & Hin & H).
      split; [exact L|]. exists tick, dpk, em, dash_pk. split; [right; exact Hin|exact H].
    + destruct Hs as (A & B & C).
      split; [intros reason H; injection H; apply A|].
      split; [intros H; injection H; exact B|].
      intros mek H; injection H as H.
      destruct (C mek H) as (L & dpk & em & dash_pk & H1).
      split; [exact L|]. exists t, dpk, em, dash_pk. split; [left; reflexivity|exact H1].
Qed.

(** X17: polling for a pairing never panics and never reports the
    private key as already consumed; when it ends with a key, that key
    is 32 bytes and is what [decrypt_mek_from_pairing], run with the
    CLI's own private key, made of the dashboard key and the encrypted
    MEK of a "completed" status reply among the turns it saw. *)
Theorem poll_for_pairing_safe (P : Crypto.CryptoPrims) (K : CryptoMek.KdfPrims)
    (private_key : bytes) (expires_in : Z) (ticks : list PairingTick) :
  let r := poll_for_pairing P K private_key expires_in ticks in
  (forall reason, r <> Some (PairPanicked reason)) /\
  r <> Some (PairErr (CryptoError "Private key already consumed")) /\
  (forall mek, r = Some (PairOk mek) ->
   length mek = Crypto.KEY_SIZE /\
   exists tick dpk em dash_pk,
     In tick ticks /\
     ptick_reply tick = StatusData "completed" (Some dpk) (Some em) /\
     Crypto.base64_decode P dpk = Done dash_pk /\
     CryptoMek.decrypt_mek_from_pairing P K private_key dash_pk em = Done mek).
Proof. apply pairing_loop_inv. reflexivity. Qed.


End PairingFacts.
